(** * cexte: the T&C detection, extraction and caching logic

    A shallow embedding of the detection / scoring / extraction code of the
    browser extension (popup/popup.js, content/content.js,
    background/background.js) and of its summary cache, with the properties
    the specification states about them.

    Conventions of the embedding.
    - A JavaScript string is the list of its code units.  Code units are
      taken in the Latin-1 range U+0000..U+00FF (type [ascii]); on that
      range the string functions below are the ECMAScript ones.
    - Numbers that count (scores, timestamps) are integers [Z]; lengths and
      indices are [nat].  The one place where the code leaves the integers
      (a division by 200 in content.js) is computed on binary64 floats.
    - The DOM is read through a snapshot record: the page's URL and title,
      its heading elements, what [document.querySelector] answers for a
      selector, and [document.body].
    - [chrome.storage.local] is a finite map from keys to stored values and
      [Date.now()] is a field of the world state. *)

From Stdlib Require Import ZArith NArith Ascii String List Bool Lia.
From Stdlib Require Import Floats Uint63.
From stdpp Require Import gmap strings list.

Set Warnings "-abstract-large-number".

Local Open Scope Z_scope.

Abbreviation jsstr := (list ascii).

(** A string literal of the source as a list of code units. *)
Definition str (s : string) : list ascii := list_ascii_of_string s.

(* ================================================================== *)
(** ** Characters *)

Module Char.

Definition code (c : ascii) : N := N_of_ascii c.

Definition between (lo hi : N) (c : ascii) : bool :=
  ((lo <=? code c) && (code c <=? hi))%N.

(** WhiteSpace and LineTerminator code points below U+0100: TAB, LF, VT,
    FF, CR, SP and NBSP.  This is the set of [\s] and of [trim]. *)
Definition is_space (c : ascii) : bool :=
  between 9 13 c || (code c =? 32)%N || (code c =? 160)%N.

(** LineTerminator: what [.] does not match. *)
Definition is_line_terminator (c : ascii) : bool :=
  (code c =? 10)%N || (code c =? 13)%N.

Definition is_digit (c : ascii) : bool := between 48 57 c.

(** Upper-case letters of Latin-1: A-Z, and U+00C0..U+00DE but U+00D7. *)
Definition is_upper (c : ascii) : bool :=
  between 65 90 c || (between 192 222 c && negb (code c =? 215)%N).

(** Lower-case letters of Latin-1 whose upper case is again in Latin-1:
    a-z, and U+00E0..U+00FE but U+00F7. *)
Definition is_lower (c : ascii) : bool :=
  between 97 122 c || (between 224 254 c && negb (code c =? 247)%N).

(** One code unit of [String.prototype.toLowerCase]. *)
Definition toLowerCase (c : ascii) : ascii :=
  if is_upper c then ascii_of_N (code c + 32) else c.

(** Canonicalize of the regular-expression semantics under the [i] flag
    (no [u] flag): the upper case of the code unit when that is a single
    code unit, and never an ASCII one for a non-ASCII input. *)
Definition canonicalize (c : ascii) : ascii :=
  if is_lower c then ascii_of_N (code c - 32) else c.

End Char.

(** [String.prototype.toLowerCase]. *)
Definition toLowerCase (s : jsstr) : jsstr := map Char.toLowerCase s.

(** [s.startsWith(p)]. *)
Fixpoint startsWith (s p : jsstr) : bool :=
  match p, s with
  | [], _ => true
  | _ :: _, [] => false
  | a :: p', c :: s' => Ascii.eqb c a && startsWith s' p'
  end.

(** [s.includes(p)]. *)
Fixpoint includes (s p : jsstr) : bool :=
  startsWith s p ||
  match s with
  | [] => false
  | _ :: s' => includes s' p
  end.

(** [s.trimStart()], [s.trimEnd()] and [s.trim()]. *)
Fixpoint trimStart (s : jsstr) : jsstr :=
  match s with
  | [] => []
  | c :: s' => if Char.is_space c then trimStart s' else s
  end.

Fixpoint trimEnd (s : jsstr) : jsstr :=
  match s with
  | [] => []
  | c :: s' =>
      match trimEnd s' with
      | [] => if Char.is_space c then [] else [c]
      | t => c :: t
      end
  end.

Definition trim (s : jsstr) : jsstr := trimEnd (trimStart s).

(** [s.substring(0, n)] for a literal [n]. *)
Definition substring0 (n : nat) (s : jsstr) : jsstr := take n s.

(** [a.join(sep)]. *)
Fixpoint join (sep : jsstr) (l : list jsstr) : jsstr :=
  match l with
  | [] => []
  | [x] => x
  | x :: l' => x ++ sep ++ join sep l'
  end.

(** [a || b] on strings: the empty string is the one falsy string. *)
Definition str_or (a b : jsstr) : jsstr :=
  match a with [] => b | _ => a end.

(* ================================================================== *)
(** ** Regular expressions

    The fragment of the ECMAScript pattern language the sources use:
    literal characters, [.], [\s], [\d], a range class, concatenation,
    alternation, the greedy [+] and the lazy [*?] over one character
    class, one capturing group, and [^].  The matcher is the backtracking
    matcher of the language definition, written with continuations: a
    continuation receives what is left of the input and the capture, and
    the first alternative whose continuation succeeds is the match. *)

Module RegExp.

Inductive cclass :=
| CChar (c : ascii)       (* a literal character *)
| CAny                    (* .      *)
| CSpace                  (* \s     *)
| CDigit                  (* \d     *)
| CRange (lo hi : ascii). (* [lo-hi] *)

Inductive regex :=
| Empty
| One (cc : cclass)
| Seq (r1 r2 : regex)
| Alt (r1 r2 : regex)
| Plus (cc : cclass)      (* cc+   *)
| LazyStar (cc : cclass)  (* cc*?  *)
| Group (r : regex)       (* ( r ) *)
| Bol.                    (* ^     *)

(** A pattern of literal characters. *)
Fixpoint lit (w : jsstr) : regex :=
  match w with
  | [] => Empty
  | [c] => One (CChar c)
  | c :: w' => Seq (One (CChar c)) (lit w')
  end.

Definition in_range (lo hi c : ascii) : bool :=
  Char.between (Char.code lo) (Char.code hi) c.

(** Does the character class accept [c]?  [ic] is the [i] flag. *)
Definition cmatch (ic : bool) (cc : cclass) (c : ascii) : bool :=
  match cc with
  | CChar p =>
      if ic then Ascii.eqb (Char.canonicalize c) (Char.canonicalize p)
      else Ascii.eqb c p
  | CAny => negb (Char.is_line_terminator c)
  | CSpace => Char.is_space c
  | CDigit => Char.is_digit c
  | CRange lo hi =>
      in_range lo hi c ||
      (ic && (in_range lo hi (Char.canonicalize c) ||
              in_range lo hi (Char.toLowerCase c)))
  end.

Section Matcher.
Context {R : Type}.
Variable ic : bool.  (* the i flag *)
Variable n : nat.    (* length of the whole input: ^ holds where n code units are left *)

(** [cc*] greedy: take a character if there is one, give it back if the
    continuation then fails. *)
Fixpoint greedy_star (cc : cclass) (s : jsstr) (k : jsstr -> option R) : option R :=
  match s with
  | c :: s' =>
      if cmatch ic cc c then
        match greedy_star cc s' k with
        | Some r => Some r
        | None => k s
        end
      else k s
  | [] => k []
  end.

(** [cc*?] lazy: try the continuation first, take a character only if
    it fails. *)
Fixpoint lazy_star (cc : cclass) (s : jsstr) (k : jsstr -> option R) : option R :=
  match k s with
  | Some r => Some r
  | None =>
      match s with
      | c :: s' => if cmatch ic cc c then lazy_star cc s' k else None
      | [] => None
      end
  end.

Fixpoint rmatch (r : regex) (s : jsstr) (cap : option jsstr)
         (k : jsstr -> option jsstr -> option R) : option R :=
  match r with
  | Empty => k s cap
  | One cc =>
      match s with
      | c :: s' => if cmatch ic cc c then k s' cap else None
      | [] => None
      end
  | Seq r1 r2 => rmatch r1 s cap (fun s1 cap1 => rmatch r2 s1 cap1 k)
  | Alt r1 r2 =>
      match rmatch r1 s cap k with
      | Some x => Some x
      | None => rmatch r2 s cap k
      end
  | Plus cc =>
      match s with
      | c :: s' =>
          if cmatch ic cc c then greedy_star cc s' (fun s1 => k s1 cap) else None
      | [] => None
      end
  | LazyStar cc => lazy_star cc s (fun s1 => k s1 cap)
  | Group r1 =>
      rmatch r1 s cap
             (fun s1 _ => k s1 (Some (take (length s - length s1) s)))
  | Bol => if Nat.eqb (length s) n then k s cap else None
  end.
End Matcher.

(** A regular-expression object: its pattern and its [g] and [i] flags. *)
Record t := mk { source : regex; global : bool; ignoreCase : bool }.

(** One attempt at the current position: the length of the match and the
    capture, if the pattern matches there. *)
Definition match_at (re : t) (n : nat) (s : jsstr) : option (nat * option jsstr) :=
  rmatch (ignoreCase re) n (source re) s None
         (fun rest cap => Some ((length s - length rest)%nat, cap)).

(** What a replacement string stands for: itself, or [$1]. *)
Inductive replacement :=
| Text (r : jsstr)
| Dollar1.

Definition expand (rep : replacement) (cap : option jsstr) : jsstr :=
  match rep with
  | Text r => r
  | Dollar1 => default [] cap
  end.

Section Scan.
Variable re : t.
Variable n : nat.

(** All matches from left to right, as [s.match(re)] collects them for
    a global [re]: after a match the search resumes where it ended (one
    further on after an empty match).  [skip] counts the code units of
    the last match still to be passed over. *)
Fixpoint match_all_from (s : jsstr) (skip : nat) : list jsstr :=
  match s with
  | [] =>
      match match_at re n [] with
      | Some _ => [[]]
      | None => []
      end
  | c :: s' =>
      match skip with
      | S k => match_all_from s' k
      | O =>
          match match_at re n s with
          | Some (len, _) => take len s :: match_all_from s' (len - 1)
          | None => match_all_from s' 0
          end
      end
  end.

Fixpoint replace_all_from (rep : replacement) (s : jsstr) (skip : nat) : jsstr :=
  match s with
  | [] =>
      match match_at re n [] with
      | Some (_, cap) => expand rep cap
      | None => []
      end
  | c :: s' =>
      match skip with
      | S k => replace_all_from rep s' k
      | O =>
          match match_at re n s with
          | Some (O, cap) => expand rep cap ++ c :: replace_all_from rep s' 0
          | Some (S l, cap) => expand rep cap ++ replace_all_from rep s' l
          | None => c :: replace_all_from rep s' 0
          end
      end
  end.

(** The first match only: [None] when there is none. *)
Fixpoint replace_first_from (rep : replacement) (s : jsstr) : option jsstr :=
  match match_at re n s with
  | Some (len, cap) => Some (expand rep cap ++ drop len s)
  | None =>
      match s with
      | [] => None
      | c :: s' => option_map (cons c) (replace_first_from rep s')
      end
  end.

(** [split]: [acc] is the piece under construction. *)
Fixpoint split_from (s : jsstr) (skip : nat) (acc : jsstr) : list jsstr :=
  match s with
  | [] => [acc]
  | c :: s' =>
      match skip with
      | S k => split_from s' k acc
      | O =>
          match match_at re n s with
          | Some (S l, _) => acc :: split_from s' l []
          | Some (O, _) =>
              match acc with
              | [] => split_from s' 0 [c]
              | _ => acc :: split_from s' 0 [c]
              end
          | None => split_from s' 0 (acc ++ [c])
          end
      end
  end.
End Scan.

(** [s.match(re)] for a global [re]: [None] is [null]. *)
Definition js_match (re : t) (s : jsstr) : option (list jsstr) :=
  match match_all_from re (length s) s 0 with
  | [] => None
  | ms => Some ms
  end.

(** [s.replace(re, rep)]. *)
Definition js_replace (re : t) (rep : replacement) (s : jsstr) : jsstr :=
  if global re then replace_all_from re (length s) rep s 0
  else default s (replace_first_from re (length s) rep s).

(** [s.split(re)]. *)
Definition js_split (re : t) (s : jsstr) : list jsstr :=
  match s with
  | [] => match match_at re 0 [] with Some _ => [] | None => [[]] end
  | _ => split_from re (length s) s 0 []
  end.

End RegExp.

Import RegExp.

(** [/\s+/g] and [/\s+/]. *)
Definition re_spaces_g : RegExp.t := RegExp.mk (Plus CSpace) true false.
Definition re_spaces : RegExp.t := RegExp.mk (Plus CSpace) false false.

(** [new RegExp(pattern, 'gi')] for a pattern without metacharacters. *)
Definition RegExp_gi (pattern : jsstr) : RegExp.t := RegExp.mk (lit pattern) true true.

(** [text.replace(/\s+/g, ' ').trim()]: the cleaning step of both
    extraction routines. *)
Definition normalize (s : jsstr) : jsstr :=
  trim (js_replace re_spaces_g (Text (str " ")) s).

(* ================================================================== *)
(** ** Numbers: the one computation on floats

    [Math.round((score / maxPossibleScore) * 100)] of content.js divides
    and multiplies binary64 numbers; the quotient by 200 is not exact, so
    the product can fall just below a half (score 29 gives 14, not 15). *)

Module Number.

(** An integer score as a Number; exact below 2^53. *)
Definition of_Z (z : Z) : float := PrimFloat.of_uint63 (Uint63.of_Z z).

(** [Math.round]: the nearest integer, a half going up.  A finite float
    is read as [m * 2^e] and rounded in the integers; zero rounds to 0.
    (Scores are finite, so NaN and the infinities do not reach this
    function.) *)
Definition round (x : float) : Z :=
  match Prim2SF x with
  | S754_finite sg m e =>
      let v := if sg then Z.neg m else Z.pos m in
      if 0 <=? e then v * 2 ^ e
      else (2 * v + 2 ^ (- e)) / 2 ^ (- e + 1)
  | _ => 0
  end.

End Number.

(* ================================================================== *)
(** ** The page, as the scripts read it *)

(** The selectors the sources pass to [document.querySelector]. *)
Inductive selector :=
| ByTag (name : string)                (* main, article *)
| ByClass (name : string)              (* .content *)
| ById (name : string)                 (* #content *)
| ByAttr (attr value : string)         (* [role=main], the value quoted *)
| ByAttrSub (attr value : string).     (* [class*=terms], the value quoted *)

Record Element := {
  innerText : jsstr;
  textContent : jsstr
}.

Record Document := {
  location_href : jsstr;                       (* window.location.href *)
  document_title : jsstr;                      (* document.title *)
  headings : list Element;                     (* querySelectorAll('h1, h2, h3, h4, h5, h6') *)
  querySelector : selector -> option Element;  (* document.querySelector *)
  body : Element                               (* document.body *)
}.

(** The loop both extraction routines of popup.js and content.js run:
<<
    let contentElement = null;
    for (const selector of contentSelectors) {
        contentElement = document.querySelector(selector);
        if (contentElement && qualifies(contentElement)) break;
    }
>>
    The variable is assigned on every turn, so after the loop it holds
    the answer for the selector the loop stopped at, or for the last
    selector when no turn broke out. *)
Fixpoint select_loop (qs : selector -> option Element) (qualifies : Element -> bool)
         (selectors : list selector) (contentElement : option Element) : option Element :=
  match selectors with
  | [] => contentElement
  | sel :: rest =>
      let contentElement := qs sel in
      match contentElement with
      | Some e => if qualifies e then contentElement
                  else select_loop qs qualifies rest contentElement
      | None => select_loop qs qualifies rest contentElement
      end
  end.

(** [el.innerText || el.textContent || ''] *)
Definition element_text (e : Element) : jsstr :=
  str_or (str_or (innerText e) (textContent e)) [].

(** A score raised by [matches.length * weight] when [text.match(re)] is
    not [null]. *)
Definition add_matches (re : RegExp.t) (weight : Z) (text : jsstr) (score : Z) : Z :=
  match js_match re text with
  | Some matches => score + Z.of_nat (length matches) * weight
  | None => score
  end.

(** JavaScript values of the result objects, and an object literal as
    the list of its properties. *)
Inductive value :=
| VBool (b : bool)
| VNum (z : Z)
| VStr (s : jsstr).

Definition object := list (string * value).

Fixpoint get (o : object) (key : string) : option value :=
  match o with
  | [] => None
  | (k, v) :: o' => if String.eqb k key then Some v else get o' key
  end.

(* ================================================================== *)
(** ** popup/popup.js: [detectAndExtractTC] *)

Module Popup.

Definition tcIndicators : list jsstr :=
  map str
    [ "terms of service"; "terms of use"; "terms and conditions";
      "user agreement"; "privacy policy"; "legal"; "eula";
      "end user license agreement"; "service agreement";
      "acceptable use policy"; "community guidelines";
      "data policy"; "cookie policy"; "disclaimer" ]%string.

Definition variations (indicator : jsstr) : list jsstr :=
  [ js_replace re_spaces_g (Text (str "-")) indicator;
    js_replace re_spaces_g (Text []) indicator;
    js_replace re_spaces_g (Text (str "_")) indicator ].

(** The inner [forEach]: 20 points for each variation the URL contains. *)
Definition urlHits (url : jsstr) (indicator : jsstr) (urlScore : Z) : Z :=
  fold_left (fun urlScore variation =>
               if includes url variation then urlScore + 20 else urlScore)
            (variations indicator) urlScore.

Definition urlScore (d : Document) : Z :=
  let url := toLowerCase (location_href d) in
  fold_left (fun urlScore indicator => urlHits url indicator urlScore)
            tcIndicators 0.

Definition titleScore (d : Document) : Z :=
  let title := toLowerCase (document_title d) in
  fold_left (fun titleScore indicator =>
               if includes title indicator then titleScore + 25 else titleScore)
            tcIndicators 0.

Definition headingsText (d : Document) : jsstr :=
  join (str " ") (map (fun h => toLowerCase (textContent h)) (headings d)).

Definition headingScore (d : Document) : Z :=
  let headings := headingsText d in
  fold_left (fun headingScore indicator =>
               if includes headings indicator then headingScore + 15 else headingScore)
            tcIndicators 0.

Definition contentSelectors : list selector :=
  [ ByTag "main"; ByAttr "role" "main"; ByClass "content"; ByClass "main-content";
    ByClass "terms"; ByClass "legal-content"; ByClass "policy-content";
    ByClass "terms-content";
    ByTag "article"; ByClass "article-content"; ByClass "document-content";
    ByClass "policy"; ByClass "agreement"; ByClass "legal" ]%string.

Definition qualifies (e : Element) : bool :=
  (500 <? length (trim (innerText e)))%nat.

Definition contentElement (d : Document) : Element :=
  match select_loop (querySelector d) qualifies contentSelectors None with
  | Some e => e
  | None => body d
  end.

Definition rawText (d : Document) : jsstr := element_text (contentElement d).

Definition mainContent (d : Document) : jsstr := normalize (rawText d).

Definition legalPatterns : list jsstr :=
  map str
    [ "hereby agree"; "terms of service"; "user agreement";
      "privacy policy"; "data collection"; "intellectual property";
      "limitation of liability"; "governing law"; "dispute resolution";
      "termination"; "prohibited uses"; "account suspension";
      "we collect"; "personal information"; "third party";
      "cookies"; "tracking"; "analytics"; "marketing";
      "license"; "copyright"; "trademark"; "warranty";
      "indemnify"; "binding arbitration"; "class action" ]%string.

(** [/\d+\.\s+[A-Z]/g], [/section\s+\d+/gi], [/article\s+\d+/gi],
    [/clause\s+\d+/gi]. *)
Definition numbered (w : string) : RegExp.t :=
  RegExp.mk (Seq (lit (str w)) (Seq (Plus CSpace) (Plus CDigit))) true true.

Definition structurePatterns : list RegExp.t :=
  [ RegExp.mk (Seq (Plus CDigit)
                (Seq (One (CChar "."))
                  (Seq (Plus CSpace) (One (CRange "A" "Z"))))) true false;
    numbered "section"; numbered "article"; numbered "clause" ].

Definition contentScore (d : Document) : Z :=
  let mainContent := mainContent d in
  let contentScore :=
    fold_left (fun contentScore pattern =>
                 add_matches (RegExp_gi pattern) 3 mainContent contentScore)
              legalPatterns 0 in
  fold_left (fun contentScore pattern =>
               add_matches pattern 2 mainContent contentScore)
            structurePatterns contentScore.

Definition totalScore (d : Document) : Z :=
  Z.min 100 (urlScore d + titleScore d + headingScore d + Z.min (contentScore d) 50).

Record result := {
  isTC : bool;
  confidence : Z;
  text : jsstr;
  url : jsstr;
  title : jsstr
}.

(** [Math.round(totalScore)] is [totalScore]: the score is an integer. *)
Definition detectAndExtractTC (d : Document) : result :=
  {| isTC := 25 <=? totalScore d;
     confidence := totalScore d;
     text := substring0 10000 (mainContent d);
     url := location_href d;
     title := document_title d |}.

(** The returned object literal, property by property. *)
Definition object_of (r : result) : object :=
  [ ("isTC", VBool (isTC r)); ("confidence", VNum (confidence r));
    ("text", VStr (text r)); ("url", VStr (url r));
    ("title", VStr (title r)) ]%string.

Definition restrictedProtocols : list jsstr :=
  map str [ "chrome://"; "chrome-extension://"; "moz-extension://";
            "edge://"; "about:"; "file://" ]%string.

Definition restrictedDomains : list jsstr :=
  map str [ "chrome.google.com/webstore"; "addons.mozilla.org";
            "microsoftedge.microsoft.com" ]%string.

(** [canAnalyzePage]: [false] as soon as the URL starts with a
    restricted protocol or contains a restricted domain. *)
Definition canAnalyzePage (url : jsstr) : bool :=
  negb (existsb (startsWith url) restrictedProtocols)
  && negb (existsb (includes url) restrictedDomains).

End Popup.

(* ================================================================== *)
(** ** content/content.js: [extractTCContent] and [analyzeTCContent] *)

Module Content.

Definition contentSelectors : list selector :=
  [ ByTag "main"; ByAttr "role" "main";
    ByClass "terms-content"; ByClass "legal-content"; ByClass "privacy-content";
    ByClass "policy-content"; ByClass "agreement-content";
    ByTag "article"; ByClass "content"; ByClass "main-content";
    ById "content"; ById "main-content" ]%string.

Definition qualifies (e : Element) : bool :=
  (500 <? length (innerText e))%nat.

Definition contentContainer (d : Document) : Element :=
  match select_loop (querySelector d) qualifies contentSelectors None with
  | Some e => e
  | None => body d
  end.

Definition keywords : list jsstr :=
  map str [ "terms"; "privacy"; "legal"; "agreement"; "policy" ]%string.

(** [/^.*?(terms|privacy|legal|agreement|policy)/i] *)
Definition re_leading : RegExp.t :=
  RegExp.mk
    (Seq Bol
      (Seq (LazyStar CAny)
        (Group (Alt (lit (str "terms"))
               (Alt (lit (str "privacy"))
               (Alt (lit (str "legal"))
               (Alt (lit (str "agreement"))
                    (lit (str "policy")))))))))
    false true.

Definition extractTCContent (d : Document) : jsstr :=
  let content := element_text (contentContainer d) in
  let content := normalize content in
  let content := js_replace re_leading Dollar1 content in
  content.

(** A pattern [a|b] with flags [gi]. *)
Definition either (a b : string) : RegExp.t :=
  RegExp.mk (Alt (lit (str a)) (lit (str b))) true true.

Definition indicators : list (RegExp.t * Z) :=
  [ (either "terms of service" "terms of use", 15);
    (either "user agreement" "service agreement", 15);
    (either "privacy policy" "data collection", 10);
    (either "hereby agree" "you agree", 10);
    (RegExp_gi (str "intellectual property"), 8);
    (RegExp_gi (str "limitation of liability"), 8);
    (RegExp.mk (Alt (lit (str "termination"))
               (Alt (lit (str "suspend")) (lit (str "suspension")))) true true, 7);
    (either "governing law" "jurisdiction", 7);
    (either "dispute resolution" "arbitration", 7);
    (either "prohibited uses" "restrictions", 6);
    (either "account" "registration", 5);
    (RegExp.mk (Alt (lit (str "payment"))
               (Alt (lit (str "billing")) (lit (str "fees")))) true true, 5);
    (either "cookies" "tracking", 4);
    (either "third party" "third-party", 3) ]%string.

Definition score (content : jsstr) : Z :=
  fold_left (fun score indicator =>
               add_matches (fst indicator) (snd indicator) content score)
            indicators 0.

Definition maxPossibleScore : float := 200%float.

(** [Math.min(100, Math.round((score / maxPossibleScore) * 100))] *)
Definition confidence_of (score : Z) : Z :=
  Z.min 100
    (Number.round
       (PrimFloat.mul (PrimFloat.div (Number.of_Z score) maxPossibleScore) 100%float)).

Record result := {
  isTC : bool;
  confidence : Z;
  content : jsstr;
  wordCount : nat;
  keyIndicators : nat
}.

Definition analyzeTCContent (d : Document) : result :=
  let content := extractTCContent d in
  let confidence := confidence_of (score content) in
  {| isTC := 30 <=? confidence;
     confidence := confidence;
     content := substring0 10000 content;
     wordCount := length (js_split re_spaces content);
     keyIndicators :=
       length (filter (fun ind => is_Some (js_match (fst ind) content)) indicators) |}.

Definition object_of (r : result) : object :=
  [ ("isTC", VBool (isTC r)); ("confidence", VNum (confidence r));
    ("content", VStr (content r)); ("wordCount", VNum (Z.of_nat (wordCount r)));
    ("keyIndicators", VNum (Z.of_nat (keyIndicators r))) ]%string.

End Content.

(* ================================================================== *)
(** ** background/background.js: [extractTextContent] *)

Module Background.

Definition selectors : list selector :=
  [ ByTag "main"; ByTag "article";
    ByClass "terms-content"; ByClass "policy-content"; ByClass "privacy-content";
    ById "terms"; ById "privacy-policy"; ByClass "legal-content";
    ByAttrSub "class" "terms"; ByAttrSub "class" "privacy";
    ByAttrSub "class" "policy" ]%string.

(** The selector loop: [content] changes only on the turn that breaks. *)
Fixpoint first_substantial (qs : selector -> option Element)
         (selectors : list selector) (content : jsstr) : jsstr :=
  match selectors with
  | [] => content
  | sel :: rest =>
      match qs sel with
      | Some element =>
          if (500 <? length (trim (innerText element)))%nat then innerText element
          else first_substantial qs rest content
      | None => first_substantial qs rest content
      end
  end.

Definition is_empty (s : jsstr) : bool :=
  match s with [] => true | _ => false end.

Definition extractTextContent (d : Document) : jsstr :=
  let content := first_substantial (querySelector d) selectors [] in
  let content :=
    if is_empty content || (length (trim content) <? 500)%nat then
      let bodyText := innerText (body d) in
      if (500 <? length (trim bodyText))%nat then bodyText else content
    else content in
  substring0 50000 (trim content).

End Background.

(* ================================================================== *)
(** ** The summary cache: [chrome.storage.local] and the clock *)

Module Cache.

(** [btoa]: base64 of a string of code units below U+0100. *)
Definition alphabet : jsstr :=
  str "ABCDEFGHIJKLMNOPQRSTUVWXYZabcdefghijklmnopqrstuvwxyz0123456789+/".

Definition b64 (n : N) : ascii := nth (N.to_nat n) alphabet "="%char.

Fixpoint btoa (s : jsstr) : jsstr :=
  match s with
  | [] => []
  | [a] =>
      let x := Char.code a in
      [ b64 (x / 4); b64 (x mod 4 * 16); "="%char; "="%char ]%N
  | [a; b] =>
      let x := Char.code a in
      let y := Char.code b in
      [ b64 (x / 4); b64 (x mod 4 * 16 + y / 16); b64 (y mod 16 * 4); "="%char ]%N
  | a :: b :: c :: rest =>
      let x := Char.code a in
      let y := Char.code b in
      let z := Char.code c in
      ([ b64 (x / 4); b64 (x mod 4 * 16 + y / 16);
         b64 (y mod 16 * 4 + z / 64); b64 (z mod 64) ]%N) ++ btoa rest
  end.

(** [encodeURIComponent]: letters, digits and [-_.!~*'()] stay, every
    other code unit becomes the percent-escapes of its UTF-8 bytes. *)
Definition unreserved (c : ascii) : bool :=
  Char.between 65 90 c || Char.between 97 122 c || Char.between 48 57 c ||
  existsb (Ascii.eqb c) (str "-_.!~*'()").

Definition hex (n : N) : ascii := nth (N.to_nat n) (str "0123456789ABCDEF") "0"%char.

Definition escape (byte : N) : jsstr := [ "%"%char; hex (byte / 16); hex (byte mod 16) ]%N.

Definition encodeURIComponent (s : jsstr) : jsstr :=
  flat_map (fun c =>
              let x := Char.code c in
              if unreserved c then [c]
              else if (x <? 128)%N then escape x
              else (escape (192 + x / 64) ++ escape (128 + x mod 64))%N) s.

(** What the extension stores under a key: the record [cacheSummary] of
    background.js builds, [{ summary, timestamp, url }], or the analysis
    the popup stores, [{ summary, categories, metadata }] (the two inner
    objects kept as their JSON text). *)
Inductive entry :=
| CacheData (summary : jsstr) (timestamp : Z) (url : jsstr)
| Analysis (summary categories metadata : jsstr).

Definition summary_of (e : entry) : jsstr :=
  match e with
  | CacheData s _ _ => s
  | Analysis s _ _ => s
  end.

(** [e.timestamp]: [None] is [undefined]. *)
Definition timestamp_of (e : entry) : option Z :=
  match e with
  | CacheData _ t _ => Some t
  | Analysis _ _ _ => None
  end.

Record world := {
  now : Z;                       (* Date.now(), in milliseconds *)
  local : gmap (list ascii) entry  (* chrome.storage.local *)
}.

(** Time passing between two calls. *)
Definition elapse (dt : Z) (w : world) : world :=
  {| now := now w + dt; local := local w |}.

(** background.js:
    [`summary_${btoa(encodeURIComponent(url)).slice(0, 50)}`] *)
Definition cacheKey (url : jsstr) : jsstr :=
  str "summary_" ++ take 50 (btoa (encodeURIComponent url)).

Definition cacheSummary (url summary : jsstr) (w : world) : world :=
  let cacheData := CacheData summary (now w) url in
  {| now := now w; local := <[cacheKey url := cacheData]> (local w) |}.

(** The value [getCachedSummary] hands to [sendResponse]; [None] is
    [null].  A difference with [undefined] is NaN, and NaN is below
    nothing. *)
Definition getCachedSummary (url : jsstr) (w : world) : option jsstr :=
  match local w !! cacheKey url with
  | Some cached =>
      let isValid :=
        match timestamp_of cached with
        | Some timestamp => now w - timestamp <? 24 * 60 * 60 * 1000
        | None => false
        end in
      if isValid then Some (summary_of cached) else None
  | None => None
  end.

(** The test of [cleanupOldCache] on one item: [timestamp] is truthy
    when it is a number other than 0. *)
Definition expired (oneWeekAgo : Z) (key : jsstr) (item : entry) : bool :=
  startsWith key (str "summary_") &&
  match timestamp_of item with
  | Some timestamp => negb (timestamp =? 0) && (timestamp <? oneWeekAgo)
  | None => false
  end.

Definition cleanupOldCache (w : world) : world :=
  let items := local w in
  let oneWeekAgo := now w - 7 * 24 * 60 * 60 * 1000 in
  let keysToRemove :=
    fst <$> filter (fun kv => expired oneWeekAgo (fst kv) (snd kv)) (map_to_list items) in
  {| now := now w; local := foldr delete items keysToRemove |}.

(** popup.js: [`summary_${btoa(tab.url).slice(0, 50)}`] *)
Definition popup_cacheKey (url : jsstr) : jsstr :=
  str "summary_" ++ take 50 (btoa url).

(** popup.js, when the popup opens on the tab that shows page [d] (the
    tab's URL is the page's): what [displayAnalysis] is called with,
    [None] when it is not called.  The page must be one the popup can
    analyze and [detectAndExtractTC] must find it a T&C page; then
    [cached[cacheKey]] is shown if it is there. *)
Definition popup_opened (d : Document) (w : world) : option entry :=
  let url := location_href d in
  if Popup.canAnalyzePage url && Popup.isTC (Popup.detectAndExtractTC d)
  then local w !! popup_cacheKey url
  else None.

(** popup.js, after a click on the button, once the backend has answered
    with [summary], [categories] and [metadata]: the analysis is stored.
    (On a page that is not a T&C page the handler returns at once.) *)
Definition popup_summarized (d : Document) (summary categories metadata : jsstr)
           (w : world) : world :=
  let url := location_href d in
  if Popup.canAnalyzePage url && Popup.isTC (Popup.detectAndExtractTC d)
  then {| now := now w;
          local := <[popup_cacheKey url := Analysis summary categories metadata]> (local w) |}
  else w.

End Cache.

(* ================================================================== *)
(** ** [RegExp.prototype.test]

    [re.test(s)] for a pattern without the [g] flag: is there a position
    of [s] where the pattern matches? *)

Fixpoint test_from (re : RegExp.t) (n : nat) (s : jsstr) : bool :=
  match match_at re n s with
  | Some _ => true
  | None =>
      match s with
      | [] => false
      | _ :: s' => test_from re n s'
      end
  end.

Definition js_test (re : RegExp.t) (s : jsstr) : bool := test_from re (length s) s.

(* ================================================================== *)
(** ** content/content.js: [detectTCPage] and [addTCIndicator] *)

Module Detect.

(** [w1\s+w2\s+...]: the words of a phrase, whitespace between them. *)
Fixpoint phrase (ws : list jsstr) : regex :=
  match ws with
  | [] => Empty
  | [w] => lit w
  | w :: ws' => Seq (lit w) (Seq (Plus CSpace) (phrase ws'))
  end.

Definition pattern (ws : list string) : RegExp.t :=
  RegExp.mk (phrase (map str ws)) false true.

(** [/terms\s+of\s+service/i], ..., [/legal\s+notice/i]. *)
Definition tcPatterns : list RegExp.t :=
  [ pattern ["terms"; "of"; "service"];
    pattern ["terms"; "of"; "use"];
    pattern ["terms"; "and"; "conditions"];
    pattern ["user"; "agreement"];
    pattern ["privacy"; "policy"];
    pattern ["end"; "user"; "license"];
    pattern ["service"; "agreement"];
    pattern ["legal"; "notice"] ]%string.

Definition urlIndicators : list jsstr :=
  map str [ "terms"; "privacy"; "legal"; "policy"; "agreement"; "eula" ]%string.

(** What the script keeps between two runs of [detectTCPage]: its
    variable [isLikelyTC], and how many elements with the id
    [tc-summarizer-indicator] the page holds. *)
Record state := {
  isLikelyTC : bool;
  indicators : nat
}.

Definition initial : state := {| isLikelyTC := false; indicators := 0 |}.

(** [addTCIndicator]: returns at once when the element exists. *)
Definition addTCIndicator (st : state) : state :=
  if (0 <? indicators st)%nat then st
  else {| isLikelyTC := isLikelyTC st; indicators := S (indicators st) |}.

(** [for (x of xs) { if (p(x)) { isLikelyTC = true; break; } }] *)
Definition flag_if_any {A} (p : A -> bool) (xs : list A) (isLikelyTC : bool) : bool :=
  if existsb p xs then true else isLikelyTC.

(** The loop over the headings: the patterns are tried on each heading,
    and the loop stops as soon as the flag is up. *)
Fixpoint heading_loop (headings : list Element) (isLikelyTC : bool) : bool :=
  match headings with
  | [] => isLikelyTC
  | heading :: rest =>
      let text := toLowerCase (textContent heading) in
      let isLikelyTC := flag_if_any (fun pattern => js_test pattern text) tcPatterns isLikelyTC in
      if isLikelyTC then isLikelyTC else heading_loop rest isLikelyTC
  end.

(** [detectTCPage] on the page [d]; [headings] is
    [document.querySelectorAll('h1, h2, h3')].  The flag is a variable of
    the script: no run ever sets it back to [false]. *)
Definition detectTCPage (d : Document) (headings : list Element) (st : state) : state :=
  let url := toLowerCase (location_href d) in
  let isLikelyTC := flag_if_any (includes url) urlIndicators (isLikelyTC st) in
  let title := toLowerCase (document_title d) in
  let isLikelyTC := flag_if_any (fun pattern => js_test pattern title) tcPatterns isLikelyTC in
  let isLikelyTC := heading_loop headings isLikelyTC in
  let st := {| isLikelyTC := isLikelyTC; indicators := indicators st |} in
  if isLikelyTC then addTCIndicator st else st.

(** The runs the script makes: one when the page is loaded, one after
    each burst of changes the observer sees, each on the page as it then
    is. *)
Definition runs (pages : list (Document * list Element)) (st : state) : state :=
  fold_left (fun st page => detectTCPage (fst page) (snd page) st) pages st.

End Detect.

(* ================================================================== *)
(** ** background/background.js: [checkIfTCPage] and [handleTCAnalysis] *)

Module Tabs.

Definition tcKeywords : list jsstr :=
  map str [ "terms"; "privacy"; "legal"; "policy"; "agreement"; "eula" ]%string.

Definition isTCUrl (tab_url : jsstr) : bool :=
  existsb (includes (toLowerCase tab_url)) tcKeywords.

(** The badge text [checkIfTCPage] sets for the tab; [None] when it
    returns without touching the badge (no URL). *)
Definition checkIfTCPage (tab_url : jsstr) : option jsstr :=
  match tab_url with
  | [] => None
  | _ => if isTCUrl tab_url then Some (str "T&C") else Some []
  end.

(** What [chrome.scripting.executeScript] comes back with: the injected
    function ran on the page, there is no result, or the call failed. *)
Inductive injection :=
| Ran (d : Document)
| NoResult
| Rejected (message : jsstr).

(** What [handleTCAnalysis] passes to [sendResponse]. *)
Inductive response :=
| Page (text url title : jsstr)
| Error (error : jsstr).

Definition handleTCAnalysis (scripting : bool) (result : injection) : response :=
  if negb scripting then Error (str "Scripting API not available")
  else
    match result with
    | Rejected message => Error message
    | NoResult => Error (str "No content found")
    | Ran d =>
        let text := Background.extractTextContent d in
        if Background.is_empty text then Error (str "No content found")
        else Page text (location_href d) (document_title d)
    end.

End Tabs.

(* ================================================================== *)
(** ** popup/popup.js: [generateAnalysis] *)

Module Backend.

(** The JSON a backend endpoint answers with; an absent field is
    [None].  [error], when there, is a string; [categories] and
    [metadata], when there, are objects, kept as their JSON text (an
    object is truthy; an absent field and the empty string are not). *)
Record body := {
  error : option jsstr;
  summary : jsstr;
  categories : option jsstr;
  metadata : option jsstr
}.

(** How a [fetch] ends: the request fails, or a response arrives, whose
    body is JSON or is not. *)
Inductive reply :=
| Unreachable (message : jsstr)
| Response (ok : bool) (status : Z) (json : body + jsstr).

(** The errors [generateAnalysis] can throw: one with a message of the
    runtime or the backend, or [`HTTP error! status: ${status}`]. *)
Inductive failure :=
| Message (message : jsstr)
| HttpError (status : Z).

Inductive endpoint := Summarize | CategoriesOnly.

(** [x || {}] *)
Definition or_empty_object (x : option jsstr) : jsstr :=
  match x with
  | Some (c :: t) => c :: t
  | _ => str "{}"
  end.

Definition truthy (x : option jsstr) : bool :=
  match x with
  | Some (_ :: _) => true
  | _ => false
  end.

(** The [try] block: the request to [/summarize]. *)
Definition primary_attempt (r : reply) : failure + Cache.entry :=
  match r with
  | Unreachable message => inl (Message message)
  | Response false status _ => inl (HttpError status)
  | Response true _ (inr message) => inl (Message message)
  | Response true _ (inl result) =>
      if truthy (error result) then inl (Message (default [] (error result)))
      else inr (Cache.Analysis (summary result)
                               (or_empty_object (categories result))
                               (or_empty_object (metadata result)))
  end.

(** The [catch] block: the request to [/categories-only]; [None] when
    it gives nothing and the first error is thrown again. *)
Definition fallback_attempt (r : reply) : option Cache.entry :=
  match r with
  | Response true _ (inl fallbackResult) =>
      Some (Cache.Analysis
              (str "Summary unavailable, but detailed analysis provided below.")
              (or_empty_object (categories fallbackResult))
              (or_empty_object (metadata fallbackResult)))
  | _ => None
  end.

(** [generateAnalysis]: what it returns or throws, and the endpoints it
    has sent the text to, in order.  [primary] and [fallback] are what
    the two endpoints answer when asked. *)
Definition generateAnalysis (primary fallback : reply)
  : (failure + Cache.entry) * list endpoint :=
  match primary_attempt primary with
  | inr analysis => (inr analysis, [Summarize])
  | inl error =>
      match fallback_attempt fallback with
      | Some analysis => (inr analysis, [Summarize; CategoriesOnly])
      | None => (inl error, [Summarize; CategoriesOnly])
      end
  end.

(** The click on the button: nothing happens on a page that is not a
    T&C page; a failed analysis leaves the cache as it is. *)
Definition summarize_click (d : Document) (primary fallback : reply)
           (w : Cache.world) : Cache.world :=
  let url := location_href d in
  if Popup.canAnalyzePage url && Popup.isTC (Popup.detectAndExtractTC d) then
    match fst (generateAnalysis primary fallback) with
    | inr (Cache.Analysis summary categories metadata) =>
        Cache.popup_summarized d summary categories metadata w
    | _ => w
    end
  else w.

End Backend.

(* ================================================================== *)
(** ** options/options.js: [clearCache] *)

Module Options.

(** What [showMessage] is called with. *)
Inductive notice :=
| Cleared (n : nat)
| NothingToClear.

(** [clearCache]: [confirmed] is the answer to the [confirm] dialog;
    without it the function returns before it reads the storage. *)
Definition clearCache (confirmed : bool) (w : Cache.world) : Cache.world * option notice :=
  if negb confirmed then (w, None)
  else
    let items := Cache.local w in
    let keysToRemove :=
      filter (fun key => startsWith key (str "summary_")) (fst <$> map_to_list items) in
    if (0 <? length keysToRemove)%nat
    then ({| Cache.now := Cache.now w; Cache.local := foldr delete items keysToRemove |},
          Some (Cleared (length keysToRemove)))
    else (w, Some NothingToClear).

End Options.

(* ================================================================== *)
(** ** background/background.js: [initializeExtension] *)

Module Setup.

Record alarm := mk_alarm { name : jsstr; periodInMinutes : Z }.

(** What [initializeExtension] reads and writes: whether [chrome.storage]
    is there, the synced settings, and the alarms ([None] when
    [chrome.alarms] is missing). *)
Record browser := mk {
  storage : bool;
  sync    : gmap jsstr bool;
  alarms  : option (list alarm)
}.

Definition cleanupCache : jsstr := str "cleanupCache".

Definition named (n : jsstr) (a : alarm) : bool := bool_decide (name a = n).

(** [chrome.alarms.create(name, info)]: an alarm of the same name is
    cancelled and replaced. *)
Definition create (a : alarm) (al : list alarm) : list alarm :=
  List.filter (fun b => negb (named (name a) b)) al ++ [a].

Definition initializeExtension (b : browser) : browser :=
  if negb (storage b) then b
  else
    let sync' :=
      <[str "cache_summaries" := true]> (<[str "auto_detect" := true]> (sync b)) in
    match alarms b with
    | Some al =>
        if negb (existsb (named cleanupCache) al)
        then mk (storage b) sync'
                (Some (create (mk_alarm cleanupCache (60 * 24)) al))
        else mk (storage b) sync' (Some al)
    | None => mk (storage b) sync' None
    end.

End Setup.

(* ================================================================== *)
(** * Vocabulary of the properties

    The notions the statements below are written with, and the sample
    pages and cache contents they are evaluated on.  Nothing here is part
    of the extension. *)

(** ** Notions of the specification *)

(** The specification's [clamp(x, lo, hi)]. *)
Definition clamp (x lo hi : Z) : Z := Z.max lo (Z.min x hi).

(** The text does not start with whitespace. *)
Definition headed (s : jsstr) : bool :=
  match s with
  | c :: _ => negb (Char.is_space c)
  | [] => true
  end.

Definition nonempty (s : jsstr) : bool :=
  match s with [] => false | _ => true end.

(** The whitespace-delimited tokens of a text: its maximal runs of
    characters that are not whitespace. *)
Fixpoint tokens (s : jsstr) : list jsstr :=
  match s with
  | [] => []
  | c :: s' =>
      if Char.is_space c then tokens s'
      else if headed s' && nonempty s' then
        match tokens s' with
        | w :: ws => (c :: w) :: ws
        | [] => [[c]]
        end
      else [c] :: tokens s'
  end.

(** No whitespace at all. *)
Definition no_space (s : jsstr) : bool :=
  forallb (fun c => negb (Char.is_space c)) s.

(** One of the five words of [extractTCContent] is at the head of [t],
    whatever the case of the letters of [t]. *)
Definition is_keyword_at (t : jsstr) : bool :=
  existsb (fun w => startsWith (toLowerCase t) w) Content.keywords.

(** The text of the container [extractTCContent] chose, cleaned: what
    its last replacement works on. *)
Definition cleaned (d : Document) : jsstr :=
  normalize (element_text (Content.contentContainer d)).

(** ** The shape of cleaned text *)

(** Length of the run of characters accepted by [p] at the head of [s]. *)
Fixpoint run (p : ascii -> bool) (s : jsstr) : nat :=
  match s with
  | c :: s' => if p c then S (run p s') else O
  | [] => O
  end.

(** What replacing every [\s+] by [r] does, written as a scan with one
    bit of state: are we inside a run of whitespace? *)
Fixpoint collapse (r : jsstr) (in_run : bool) (s : jsstr) : jsstr :=
  match s with
  | [] => []
  | c :: s' =>
      if Char.is_space c then
        if in_run then collapse r true s' else r ++ collapse r true s'
      else c :: collapse r false s'
  end.

(** Every whitespace character is a U+0020 followed by a character that
    is not whitespace, or by the end of the text. *)
Fixpoint loose (s : jsstr) : bool :=
  match s with
  | [] => true
  | c :: s' =>
      (negb (Char.is_space c) || (Ascii.eqb c " " && headed s')) && loose s'
  end.

(** Every whitespace character is a U+0020 followed by a character that
    is not whitespace. *)
Fixpoint spaced (s : jsstr) : bool :=
  match s with
  | [] => true
  | c :: s' =>
      (negb (Char.is_space c) || (Ascii.eqb c " " && headed s' && nonempty s'))
      && spaced s'
  end.

(** The normal form of cleaned text: single spaces between words, none
    at either end. *)
Definition normal (s : jsstr) : bool := headed s && spaced s.

Definition count_spaces (s : jsstr) : nat :=
  length (List.filter Char.is_space s).

Definition no_line_terminator (s : jsstr) : bool :=
  forallb (fun c => negb (Char.is_line_terminator c)) s.

(** All 256 code units, for facts checked character by character. *)
Definition all_ascii : list ascii := map ascii_of_nat (seq 0 256).

(** ** Literals and keywords, as the matcher sees them *)

(** [w] is at the head of [t], characters compared as the matcher
    compares a literal. *)
Fixpoint lit_prefix (ic : bool) (w t : jsstr) : bool :=
  match w, t with
  | [], _ => true
  | _ :: _, [] => false
  | p :: w', c :: t' => cmatch ic (CChar p) c && lit_prefix ic w' t'
  end.

(** The first of the five words that is at the head of [t]. *)
Definition keyword_at (t : jsstr) : option jsstr :=
  List.find (fun w => lit_prefix true w t) Content.keywords.

(** The tail of [s] that starts at the leftmost position where one of the
    words is found, with that word. *)
Fixpoint first_keyword (s : jsstr) : option (jsstr * jsstr) :=
  match keyword_at s with
  | Some w => Some (s, w)
  | None =>
      match s with
      | [] => None
      | _ :: s' => first_keyword s'
      end
  end.

(** ** Sample pages *)

(** An element whose rendered text and text content agree. *)
Definition plain (t : jsstr) : Element := {| innerText := t; textContent := t |}.

Definition empty_document : Document :=
  {| location_href := []; document_title := []; headings := [];
     querySelector := fun _ => None; body := plain [] |}.

(** A page whose only matching container is a short [.legal] /
    [#main-content] element, in a body of 720 characters. *)
Definition short_banner : Element := plain (str "Legal").

Definition long_body : Element :=
  plain (concat (repeat (str "Terms of service. ") 40)).

Definition banner_page : Document :=
  {| location_href := str "https://example.com/";
     document_title := str "Example";
     headings := [];
     querySelector := fun sel =>
       match sel with
       | ByClass "legal" => Some short_banner
       | ById "main-content" => Some short_banner
       | _ => None
       end;
     body := long_body |}.

(** A page that only its title gives away. *)
Definition title_only_page : Document :=
  {| location_href := str "https://example.com/";
     document_title := str "Terms of Service";
     headings := [];
     querySelector := fun _ => None;
     body := plain (str "Welcome to Example.") |}.

(** A page with the word "legal" in its URL and nowhere else. *)
Definition legal_page : Document :=
  {| location_href := str "https://example.com/Legal";
     document_title := str "Example";
     headings := [];
     querySelector := fun _ => None;
     body := plain (str "Welcome to Example.") |}.

(** A page whose cleaned text is 9,999 letters, a space and one more
    letter: the cut at 10,000 falls just after the space. *)
Definition cut_page : Document :=
  {| location_href := str "https://example.com/";
     document_title := str "Example";
     headings := [];
     querySelector := fun _ => None;
     body := plain (repeat "a"%char 9999 ++ str " b") |}.

(** ** Sample cache contents *)

Definition terms_url : jsstr := str "https://example.com/terms".

Definition two_days : Z := 2 * 24 * 60 * 60 * 1000.

(** ** Further sample pages and requests *)

(** A page with a short [main] and a long [article]. *)
Definition article_page : Document :=
  {| location_href := str "https://example.com/privacy";
     document_title := str "Privacy Policy";
     headings := [plain (str "Privacy Policy")];
     querySelector := fun sel =>
       match sel with
       | ByTag "main" => Some short_banner
       | ByTag "article" => Some long_body
       | _ => None
       end;
     body := plain (str "Menu " ++ innerText long_body ++ str " Footer") |}.

(** Cleanups of the cache run one after the other, the first [dt]
    milliseconds from now, the next so long after the first, and so on. *)
Fixpoint later_cleanups (dts : list Z) (w : Cache.world) : Cache.world :=
  match dts with
  | [] => w
  | dt :: rest => later_cleanups rest (Cache.cleanupOldCache (Cache.elapse dt w))
  end.

(** Two pages of one site whose URLs agree on their first 40 characters. *)
Definition site_prefix : jsstr := str "https://www.example.com/legal/documents/".

Definition site_page (path : string) : Document :=
  {| location_href := site_prefix ++ str path;
     document_title := str "Example";
     headings := [];
     querySelector := fun _ => None;
     body := plain (str "Welcome to Example.") |}.

(** The body of a reply that is a response with an ok status and JSON. *)
Definition json_of (r : Backend.reply) : option Backend.body :=
  match r with
  | Backend.Response true _ (inl b) => Some b
  | _ => None
  end.

Definition fallback_summary : jsstr :=
  str "Summary unavailable, but detailed analysis provided below.".

(** What [field || {}] is for a field of a reply: the field itself when
    it is there, the empty object when it is absent (or the empty
    string). *)
Definition field_or_empty_object (field : option jsstr) (value : jsstr) : Prop :=
  match field with
  | Some (c :: t) => value = c :: t
  | _ => value = str "{}"
  end.

(** A reply of the backend with a summary and nothing else. *)
Definition summary_reply (s : string) : Backend.reply :=
  Backend.Response true 200
    (inl {| Backend.error := None; Backend.summary := str s;
            Backend.categories := None; Backend.metadata := None |}).

(** A page with nothing of a T&C page, and one with a telling heading. *)
Definition plain_page : Document :=
  {| location_href := str "https://example.com/about";
     document_title := str "About us";
     headings := [plain (str "About us")];
     querySelector := fun _ => None;
     body := plain (str "Welcome to Example.") |}.

Definition heading_page : Document :=
  {| location_href := str "https://example.com/about";
     document_title := str "About us";
     headings := [plain (str "Privacy   Policy")];
     querySelector := fun _ => None;
     body := plain (str "Welcome to Example.") |}.

(** The phrases of [tcPatterns] in content.js, word by word. *)
Definition pattern_phrases : list (list string) :=
  [ ["terms"; "of"; "service"]; ["terms"; "of"; "use"];
    ["terms"; "and"; "conditions"]; ["user"; "agreement"];
    ["privacy"; "policy"]; ["end"; "user"; "license"];
    ["service"; "agreement"]; ["legal"; "notice"] ]%string.

(** The indicators of popup.js that contain one of these phrases. *)
Definition shared_indicators : list jsstr :=
  map str [ "terms of service"; "terms of use"; "terms and conditions";
            "user agreement"; "privacy policy"; "end user license agreement";
            "service agreement" ]%string.

(** A word: not empty and without whitespace. *)
Definition is_word (w : jsstr) : bool := nonempty w && no_space w.

(** ** The confidence of the content script, in the integers *)

(** How often a pattern matches a text: the length of [text.match(re)],
    0 when it is [null]. *)
Definition match_count (re : RegExp.t) (text : jsstr) : Z :=
  match js_match re text with
  | Some matches => Z.of_nat (length matches)
  | None => 0
  end.

(** The weighted content-pattern matches: the weight of each indicator
    times the number of its matches, summed. *)
Definition weighted_matches (content : jsstr) : Z :=
  fold_right (fun indicator sum =>
                snd indicator * match_count (fst indicator) content + sum)
             0 Content.indicators.

(** The scores below 200 whose quotient by 200, taken times 100, falls
    just below a half in binary64. *)
Definition rounds_down : list Z := [29; 57; 113; 115].

(** [min(100, round(score / 200 * 100))] read in the integers: half the
    score, a half going up, and at most 100; at the scores of
    [rounds_down] the half goes down. *)
Definition half_of_score (score : Z) : Z :=
  if existsb (Z.eqb score) rounds_down then (score - 1) / 2
  else Z.min 100 ((score + 1) / 2).

(** One rendered text under two markups: no heading element, URL and
    title that say nothing; and a heading element, URL and title that
    tell. *)
Definition agreement_text : Element :=
  plain (str "Privacy Policy You agree to the privacy policy.").

Definition unmarked_page : Document :=
  {| location_href := str "https://example.com/welcome";
     document_title := str "Welcome";
     headings := [];
     querySelector := fun _ => None;
     body := agreement_text |}.

Definition marked_page : Document :=
  {| location_href := str "https://example.com/terms";
     document_title := str "Terms of Service";
     headings := [plain (str "Privacy Policy")];
     querySelector := fun _ => None;
     body := agreement_text |}.

(* ================================================================== *)
(** * Properties *)

(** ** The embedding at work *)

Example normalize_ex :
  normalize (str "  Terms   of
	Service  ") = str "Terms of Service".
Proof. reflexivity. Qed.

Example split_ex :
  js_split re_spaces (str " a  b ") = [[]; str "a"; str "b"; []].
Proof. reflexivity. Qed.

Example split_empty_ex : js_split re_spaces [] = [[]].
Proof. reflexivity. Qed.

Example match_ex :
  js_match (RegExp_gi (str "privacy policy")) (str "Privacy Policy; the PRIVACY POLICY")
  = Some [str "Privacy Policy"; str "PRIVACY POLICY"].
Proof. reflexivity. Qed.

Example btoa_ex :
  Cache.btoa (str "https://example.com") = str "aHR0cHM6Ly9leGFtcGxlLmNvbQ==".
Proof. reflexivity. Qed.

Example encodeURIComponent_ex :
  Cache.encodeURIComponent (str "https://example.com/a b?x=1") =
  str "https%3A%2F%2Fexample.com%2Fa%20b%3Fx%3D1".
Proof. reflexivity. Qed.

(** ** Scores never go down *)

Section Accumulate.
Context {A : Type} (f : Z -> A -> Z).
Hypothesis f_mono : forall acc x, acc <= f acc x.

Lemma fold_left_ge (l : list A) (acc : Z) : acc <= fold_left f l acc.
Proof using f_mono.
  revert acc; induction l as [|x l IH]; intros acc; simpl; [lia|].
  specialize (IH (f acc x)). specialize (f_mono acc x). lia.
Qed.

Lemma fold_left_ge_member (l : list A) (acc : Z) (x : A) (c : Z) :
  In x l -> (forall a, a + c <= f a x) -> acc + c <= fold_left f l acc.
Proof using f_mono.
  revert acc; induction l as [|y l IH]; intros acc Hin Hx; simpl; [destruct Hin|].
  destruct Hin as [->|Hin].
  - specialize (Hx acc). pose proof (fold_left_ge l (f acc x)). lia.
  - specialize (IH (f acc y) Hin Hx). specialize (f_mono acc y). lia.
Qed.
End Accumulate.

Lemma add_matches_ge re weight text score :
  0 <= weight -> score <= add_matches re weight text score.
Proof.
  intros Hw. unfold add_matches. destruct (js_match re text); nia.
Qed.

Lemma urlHits_shift url indicator acc :
  Popup.urlHits url indicator acc = acc + Popup.urlHits url indicator 0.
Proof.
  unfold Popup.urlHits, Popup.variations. simpl.
  repeat match goal with |- context [if ?b then _ else _] => destruct b end; lia.
Qed.

Lemma urlHits_ge url indicator acc : acc <= Popup.urlHits url indicator acc.
Proof.
  unfold Popup.urlHits. apply fold_left_ge. intros a v. destruct (includes url v); lia.
Qed.

Lemma urlScore_nonneg d : 0 <= Popup.urlScore d.
Proof. unfold Popup.urlScore. apply fold_left_ge. intros; apply urlHits_ge. Qed.

Lemma titleScore_nonneg d : 0 <= Popup.titleScore d.
Proof.
  unfold Popup.titleScore. apply fold_left_ge.
  intros a x. destruct (includes _ x); lia.
Qed.

Lemma headingScore_nonneg d : 0 <= Popup.headingScore d.
Proof.
  unfold Popup.headingScore. apply fold_left_ge.
  intros a x. destruct (includes _ x); lia.
Qed.

Lemma contentScore_nonneg d : 0 <= Popup.contentScore d.
Proof.
  unfold Popup.contentScore.
  etransitivity; [|apply fold_left_ge; intros; apply add_matches_ge; lia].
  apply fold_left_ge; intros; apply add_matches_ge; lia.
Qed.

(** ** What the selector loop can leave in its variable *)

Lemma select_loop_origin qs qualifies sels cur e :
  select_loop qs qualifies sels cur = Some e ->
  cur = Some e \/ exists sel, In sel sels /\ qs sel = Some e.
Proof.
  revert cur; induction sels as [|sel rest IH]; intros cur H; simpl in H; [now left|].
  right. destruct (qs sel) as [e'|] eqn:Hq.
  - destruct (qualifies e').
    + exists sel. split; [now left|congruence].
    + destruct (IH _ H) as [Hc | (sel' & Hin & Hs)].
      * exists sel. split; [now left|congruence].
      * exists sel'. split; [now right|exact Hs].
  - destruct (IH _ H) as [Hc | (sel' & Hin & Hs)]; [discriminate|].
    exists sel'. split; [now right|exact Hs].
Qed.

(** The half of the selection that holds: the first selector, in the
    order of the list, whose element qualifies gives the content. *)
Lemma select_loop_first_qualifying qs qualifies before sel after cur e :
  (forall s e', In s before -> qs s = Some e' -> qualifies e' = false) ->
  qs sel = Some e -> qualifies e = true ->
  select_loop qs qualifies (before ++ sel :: after) cur = Some e.
Proof.
  intros Hb Hq He. revert cur; induction before as [|s before IH]; intros cur; simpl.
  - now rewrite Hq, He.
  - destruct (qs s) as [e'|] eqn:Hs.
    + rewrite (Hb s e' (or_introl eq_refl) Hs). apply IH.
      intros s0 e0 Hin. apply Hb. now right.
    + apply IH. intros s0 e0 Hin. apply Hb. now right.
Qed.

(** The other half: when no element qualifies, the variable is left with
    the answer for the last selector, which need not be [null]. *)
Lemma select_loop_none_qualifying qs qualifies sels last cur :
  (forall s e, In s (sels ++ [last]) -> qs s = Some e -> qualifies e = false) ->
  select_loop qs qualifies (sels ++ [last]) cur = qs last.
Proof.
  intros H. revert cur; induction sels as [|s sels IH]; intros cur; simpl.
  - destruct (qs last) as [e|] eqn:Hl; [|reflexivity].
    now rewrite (H last e (or_introl eq_refl) Hl).
  - destruct (qs s) as [e|] eqn:Hs.
    + rewrite (H s e (or_introl eq_refl) Hs). apply IH.
      intros s0 e0 Hin. apply H. now right.
    + apply IH. intros s0 e0 Hin. apply H. now right.
Qed.

Lemma select_loop_ext qs qs' qualifies sels cur :
  (forall sel, qs sel = qs' sel) ->
  select_loop qs qualifies sels cur = select_loop qs' qualifies sels cur.
Proof.
  intros E. revert cur; induction sels as [|sel rest IH]; intros cur; simpl; [reflexivity|].
  rewrite <- E. destruct (qs sel) as [e|]; [destruct (qualifies e)|]; auto.
Qed.

(* ------------------------------------------------------------------ *)
(** ** The aggregate score of [detectAndExtractTC] *)

Lemma totalScore_clamp (d : Document) :
  Popup.totalScore d =
    clamp (Popup.urlScore d + Popup.titleScore d + Popup.headingScore d
           + Z.min (Popup.contentScore d) 50) 0 100.
Proof.
  pose proof (urlScore_nonneg d). pose proof (titleScore_nonneg d).
  pose proof (headingScore_nonneg d). pose proof (contentScore_nonneg d).
  unfold Popup.totalScore, clamp. lia.
Qed.

(** C1.  For every document snapshot the total score [detectAndExtractTC]
    computes (and returns as [confidence]) is the clamped sum of the four
    sub-scores, clamp(urlScore + titleScore + headingScore +
    min(contentScore, 50), 0, 100), and so lies between 0 and 100. *)
Theorem totalScore_is_clamped_sum (d : Document) :
  Popup.totalScore d =
    clamp (Popup.urlScore d + Popup.titleScore d + Popup.headingScore d
           + Z.min (Popup.contentScore d) 50) 0 100
  /\ Popup.confidence (Popup.detectAndExtractTC d) = Popup.totalScore d
  /\ 0 <= Popup.totalScore d <= 100.
Proof.
  split; [apply totalScore_clamp|]. split; [reflexivity|].
  rewrite totalScore_clamp. unfold clamp. lia.
Qed.

(* ------------------------------------------------------------------ *)
(** ** Length caps *)

Lemma length_substring0 (n : nat) (s : jsstr) : (length (substring0 n s) <= n)%nat.
Proof. unfold substring0. rewrite length_take. apply Nat.le_min_l. Qed.

Lemma substring0_short (n : nat) (s : jsstr) :
  (length s <= n)%nat -> substring0 n s = s.
Proof. intros H. unfold substring0. now apply take_ge. Qed.

(** C4.  Whatever the size of the page, the text [detectAndExtractTC] and
    [analyzeTCContent] return has at most 10,000 code units, and the text
    [extractTextContent] prepares for the summarization request has at
    most 50,000. *)
Theorem extracted_text_is_capped (d : Document) :
  (length (Popup.text (Popup.detectAndExtractTC d)) <= 10000)%nat
  /\ (length (Content.content (Content.analyzeTCContent d)) <= 10000)%nat
  /\ (length (Background.extractTextContent d) <= 50000)%nat.
Proof.
  repeat split; apply length_substring0.
Qed.

(* ------------------------------------------------------------------ *)
(** ** The empty page *)

Lemma mainContent_of_textless (d : Document) :
  (forall sel e, querySelector d sel = Some e -> element_text e = []) ->
  element_text (body d) = [] ->
  Popup.mainContent d = [].
Proof.
  intros Hq Hb. unfold Popup.mainContent, Popup.rawText, Popup.contentElement.
  destruct (select_loop _ _ _ _) as [e|] eqn:Hsel.
  - apply select_loop_origin in Hsel as [Hc | (sel & _ & Hs)]; [discriminate|].
    rewrite (Hq _ _ Hs). reflexivity.
  - rewrite Hb. reflexivity.
Qed.

(** C5.  A snapshot with an empty URL, an empty title, no headings and no
    text (in the body and in whatever element a selector finds) gets
    totalScore 0, is not a match, and yields the empty text. *)
Theorem empty_snapshot_scores_zero (d : Document) :
  location_href d = [] ->
  document_title d = [] ->
  headings d = [] ->
  (forall sel e, querySelector d sel = Some e -> element_text e = []) ->
  element_text (body d) = [] ->
  Popup.totalScore d = 0
  /\ Popup.isTC (Popup.detectAndExtractTC d) = false
  /\ Popup.text (Popup.detectAndExtractTC d) = [].
Proof.
  intros Hu Ht Hh Hq Hb.
  pose proof (mainContent_of_textless d Hq Hb) as Hm.
  assert (Popup.totalScore d = 0) as H0.
  { unfold Popup.totalScore, Popup.urlScore, Popup.titleScore, Popup.headingScore,
      Popup.headingsText, Popup.contentScore.
    rewrite Hu, Ht, Hh, Hm. vm_compute. reflexivity. }
  cbn [Popup.isTC Popup.text Popup.detectAndExtractTC].
  rewrite H0, Hm. repeat split.
Qed.

Lemma empty_snapshot_scores_zero_witness :
  Popup.totalScore empty_document = 0
  /\ Popup.isTC (Popup.detectAndExtractTC empty_document) = false
  /\ Popup.text (Popup.detectAndExtractTC empty_document) = [].
Proof.
  apply (empty_snapshot_scores_zero empty_document); try reflexivity.
  intros sel e H. simpl in H. discriminate H.
Defined.

(* ------------------------------------------------------------------ *)
(** ** The selector loop and the fallback to the body *)

(** C2 (the code at the failing input).  No selector of either list
    finds an element with more than 500 characters, yet both loops leave
    the short element in their variable, so the text is "Legal" and not
    the body's; [extractTextContent] of background.js, on the same page,
    does fall back to the body. *)
Theorem last_selector_shadows_body :
  existsb (fun sel => match querySelector banner_page sel with
                      | Some e => Popup.qualifies e
                      | None => false
                      end) Popup.contentSelectors = false
  /\ existsb (fun sel => match querySelector banner_page sel with
                         | Some e => Content.qualifies e
                         | None => false
                         end) Content.contentSelectors = false
  /\ Popup.text (Popup.detectAndExtractTC banner_page) = str "Legal"
  /\ Content.extractTCContent banner_page = str "Legal"
  /\ Popup.text (Popup.detectAndExtractTC banner_page)
       <> substring0 10000 (normalize (element_text (body banner_page)))
  /\ Background.extractTextContent banner_page = trim (innerText (body banner_page)).
Proof.
  repeat split; try (vm_compute; reflexivity).
  vm_compute. discriminate.
Qed.

(* ------------------------------------------------------------------ *)
(** ** The two detection call sites *)

(** C3 (counterexample).  On a page that only its title gives away, the
    popup scores 25 and the content script 0. *)
Lemma call_sites_disagree :
  Popup.confidence (Popup.detectAndExtractTC title_only_page) = 25
  /\ Content.confidence (Content.analyzeTCContent title_only_page) = 0
  /\ Popup.confidence (Popup.detectAndExtractTC title_only_page)
       <> Content.confidence (Content.analyzeTCContent title_only_page).
Proof.
  repeat split; try (vm_compute; reflexivity). vm_compute. discriminate.
Qed.

Lemma contentContainer_ext (d d' : Document) :
  (forall sel, querySelector d sel = querySelector d' sel) ->
  body d = body d' ->
  Content.contentContainer d = Content.contentContainer d'.
Proof.
  intros Hq Hb. unfold Content.contentContainer.
  rewrite (select_loop_ext _ _ _ _ _ Hq), Hb. reflexivity.
Qed.

(* ------------------------------------------------------------------ *)
(** ** The confidence in binary64

    [round(score / 200 * 100)] is computed on floats.  Below, the
    operations are read off their specification ([SpecFloat]): a score of
    200 or more, below 2^53, is a normal number; its quotient by 200 is at
    least 1, the product by 100 at least 100, and so is the rounded
    value.  The scores below 200 are checked one by one. *)

Lemma digits2_pos_bounds p :
  2 ^ (Z.pos (digits2_pos p) - 1) <= Z.pos p < 2 ^ Z.pos (digits2_pos p).
Proof.
  induction p as [p IH|p IH|]; cbn [digits2_pos]; [| |cbn; lia].
  all: rewrite Pos2Z.inj_succ.
  all: replace (Z.succ (Z.pos (digits2_pos p)) - 1)
         with (Z.succ (Z.pos (digits2_pos p) - 1)) by lia.
  all: rewrite !Z.pow_succ_r by lia.
  all: lia.
Qed.

Lemma digits2_pos_unique p d :
  2 ^ (d - 1) <= Z.pos p < 2 ^ d -> Z.pos (digits2_pos p) = d.
Proof.
  intros [Hl Hu]. pose proof (digits2_pos_bounds p) as [Hl' Hu'].
  assert (0 < d) as Hd.
  { destruct (Z_lt_le_dec 0 d) as [|Hd]; [assumption|].
    assert (2 ^ d <= 1); [|lia].
    destruct (Z.eq_dec d 0) as [->|]; [cbn; lia|].
    rewrite Z.pow_neg_r by lia. lia. }
  assert (d - 1 < Z.pos (digits2_pos p)) as H1.
  { apply (Z.pow_lt_mono_r_iff 2); lia. }
  assert (Z.pos (digits2_pos p) - 1 < d) as H2.
  { apply (Z.pow_lt_mono_r_iff 2); lia. }
  lia.
Qed.

Lemma shr_1_m mrs :
  0 <= shr_m mrs -> shr_m (shr_1 mrs) = shr_m mrs / 2 /\ 0 <= shr_m (shr_1 mrs).
Proof.
  destruct mrs as [m r s]. cbn [shr_m]. intros H.
  destruct m as [|[p|p|]|p]; cbn [shr_1 shr_m]; try lia.
  - split; [reflexivity|lia].
  - split; [|lia]. rewrite Pos2Z.inj_xI. apply Z.div_unique with 1; lia.
  - split; [|lia]. rewrite Pos2Z.inj_xO. apply Z.div_unique with 0; lia.
  - split; [reflexivity|lia].
Qed.

Lemma iter_pos_shr_m p : forall mrs,
  0 <= shr_m mrs ->
  shr_m (SpecFloat.iter_pos shr_1 p mrs) = shr_m mrs / 2 ^ Z.pos p
  /\ 0 <= shr_m (SpecFloat.iter_pos shr_1 p mrs).
Proof.
  induction p as [p IH|p IH|]; intros mrs H; cbn [SpecFloat.iter_pos].
  - destruct (shr_1_m mrs H) as [E1 N1].
    destruct (IH _ N1) as [E2 N2]. destruct (IH _ N2) as [E3 N3].
    split; [|exact N3]. rewrite E3, E2, E1.
    assert (0 < 2 ^ Z.pos p) by (apply Z.pow_pos_nonneg; lia).
    rewrite !Z.div_div by lia. f_equal.
    replace (Z.pos p~1) with (1 + Z.pos p + Z.pos p) by lia.
    rewrite !Z.pow_add_r by lia. change (2 ^ 1) with 2. ring.
  - destruct (IH _ H) as [E2 N2]. destruct (IH _ N2) as [E3 N3].
    split; [|exact N3]. rewrite E3, E2.
    assert (0 < 2 ^ Z.pos p) by (apply Z.pow_pos_nonneg; lia).
    rewrite !Z.div_div by lia. f_equal.
    replace (Z.pos p~0) with (Z.pos p + Z.pos p) by lia.
    rewrite !Z.pow_add_r by lia. ring.
  - destruct (shr_1_m mrs H) as [E1 N1]. split; [|exact N1].
    rewrite E1. reflexivity.
Qed.

Lemma shr_record_of_loc_m m l : shr_m (shr_record_of_loc m l) = m.
Proof. destruct l as [|[]]; reflexivity. Qed.

(** A right shift by [n] places, as [shr_fexp] does it on a mantissa of
    [53 + n] digits. *)
Lemma shr_fexp_m mx ex lx n :
  0 <= mx -> 0 <= n ->
  fexp prec emax (Zdigits2 mx + ex) - ex = n ->
  exists mrs, shr_fexp prec emax mx ex lx = (mrs, ex + n)
              /\ shr_m mrs = mx / 2 ^ n
              /\ (n = 0 -> mrs = shr_record_of_loc mx lx).
Proof.
  intros Hm Hn Hs. unfold shr_fexp. rewrite Hs. unfold shr.
  destruct n as [|p|p]; [| |lia].
  - eexists. split; [rewrite Z.add_0_r; reflexivity|].
    split; [|reflexivity]. rewrite shr_record_of_loc_m. cbn. now rewrite Z.div_1_r.
  - eexists. split; [reflexivity|]. split; [|discriminate].
    destruct (iter_pos_shr_m p (shr_record_of_loc mx lx)) as [E _].
    + now rewrite shr_record_of_loc_m.
    + now rewrite E, shr_record_of_loc_m.
Qed.

Lemma round_nearest_even_cases m l :
  round_nearest_even m l = m \/ round_nearest_even m l = m + 1.
Proof. destruct l as [|[]]; cbn; auto. destruct (Z.even m); auto. Qed.

Lemma fexp_normal e : -1074 <= e - 53 -> fexp prec emax e = e - 53.
Proof. intros H. unfold fexp, emin, prec, emax. lia. Qed.

(** Rounding a positive mantissa of [53 + n] digits, away from the
    subnormal and the overflow range: the result is normal and not below
    the mantissa cut to 53 digits. *)
Lemma binary_round_aux_normal mx ex lx n :
  0 <= n -> 2 ^ (52 + n) <= mx < 2 ^ (53 + n) ->
  -1074 <= ex + n -> ex + n + 1 <= 971 ->
  exists m e,
    binary_round_aux prec emax false mx ex lx = S754_finite false m e
    /\ 2 ^ 52 <= Z.pos m < 2 ^ 53
    /\ ((e = ex + n /\ mx / 2 ^ n <= Z.pos m)
        \/ (e = ex + n + 1 /\ Z.pos m = 2 ^ 52)).
Proof.
  intros Hn [Hl Hu] Hlo Hhi.
  assert (0 < 2 ^ n) as Hpn by (apply Z.pow_pos_nonneg; lia).
  assert (0 < mx) as Hpos.
  { assert (0 < 2 ^ (52 + n)) by (apply Z.pow_pos_nonneg; lia). lia. }
  assert (Zdigits2 mx = 53 + n) as Hd.
  { destruct mx as [|p|p]; try lia. cbn [Zdigits2].
    apply digits2_pos_unique. replace (53 + n - 1) with (52 + n) by lia. lia. }
  unfold binary_round_aux.
  destruct (shr_fexp_m mx ex lx n) as (mrs & E1 & Hm1 & _); [lia|lia| |].
  { rewrite Hd, fexp_normal by lia. lia. }
  rewrite E1.
  set (ms := shr_m mrs) in *.
  assert (2 ^ 52 <= ms < 2 ^ 53) as [Hsl Hsu].
  { rewrite Hm1. split.
    - apply Z.div_le_lower_bound; [lia|]. rewrite <- Z.pow_add_r by lia.
      now rewrite Z.add_comm.
    - apply Z.div_lt_upper_bound; [lia|]. rewrite <- Z.pow_add_r by lia.
      now rewrite Z.add_comm. }
  set (mr := round_nearest_even ms (loc_of_shr_record mrs)).
  assert (mr = ms \/ mr = ms + 1) as Hr by apply round_nearest_even_cases.
  destruct (Z_lt_le_dec mr (2 ^ 53)) as [Hlt|Hge].
  - (* no carry *)
    destruct (shr_fexp_m mr (ex + n) loc_Exact 0) as (mrs2 & E2 & Hm2 & Hz);
      [lia|lia| |].
    { assert (Zdigits2 mr = 53) as ->.
      { destruct mr as [|p|p]; try lia. cbn [Zdigits2].
        apply digits2_pos_unique. change (53 - 1) with 52. lia. }
      rewrite fexp_normal by lia. lia. }
    rewrite E2. rewrite Z.add_0_r. rewrite Hm2. cbn [Z.pow]. rewrite Z.div_1_r.
    destruct mr as [|p|p] eqn:Emr; try lia.
    assert ((ex + n <=? emax - prec) = true) as -> by (apply Z.leb_le; unfold emax, prec; lia).
    exists p, (ex + n). split; [reflexivity|]. split; [lia|]. left.
    split; [reflexivity|]. fold ms. lia.
  - (* the rounding carries into a 54th digit *)
    assert (mr = 2 ^ 53) as Emr by lia.
    rewrite Emr.
    destruct (shr_fexp_m (2 ^ 53) (ex + n) loc_Exact 1) as (mrs2 & E2 & Hm2 & _);
      [lia|lia| |].
    { change (Zdigits2 (2 ^ 53)) with 54. rewrite fexp_normal by lia. lia. }
    rewrite E2, Hm2. change (2 ^ 53 / 2 ^ 1) with (Z.pos (2 ^ 52)).
    cbv iota.
    assert ((ex + n + 1 <=? emax - prec) = true) as -> by (apply Z.leb_le; unfold emax, prec; lia).
    exists (2 ^ 52)%positive, (ex + n + 1). split; [reflexivity|].
    split; [cbn; lia|]. right. split; reflexivity.
Qed.

Lemma binary_round_aux_exact mx ex :
  2 ^ 52 <= Z.pos mx < 2 ^ 53 -> -1074 <= ex <= 971 ->
  binary_round_aux prec emax false (Z.pos mx) ex loc_Exact = S754_finite false mx ex.
Proof.
  intros Hm He. unfold binary_round_aux.
  destruct (shr_fexp_m (Z.pos mx) ex loc_Exact 0) as (mrs & E & _ & Hz); [lia|lia| |].
  { assert (Zdigits2 (Z.pos mx) = 53) as ->.
    { cbn [Zdigits2]. apply digits2_pos_unique. change (53 - 1) with 52. lia. }
    rewrite fexp_normal by lia. lia. }
  rewrite Z.add_0_r in E. rewrite E, (Hz eq_refl).
  cbn [shr_record_of_loc loc_of_shr_record shr_m round_nearest_even].
  rewrite E, (Hz eq_refl). cbn [shr_record_of_loc shr_m].
  assert ((ex <=? emax - prec) = true) as -> by (apply Z.leb_le; unfold emax, prec; lia).
  reflexivity.
Qed.

Lemma pos_iter_xO p k : Z.pos (Pos.iter xO p k) = Z.pos p * 2 ^ Z.pos k.
Proof.
  induction k as [|k IH] using Pos.peano_ind.
  - cbn [Pos.iter]. rewrite Pos2Z.inj_xO. change (2 ^ 1) with 2. lia.
  - rewrite Pos.iter_succ, Pos2Z.inj_xO, IH, Pos2Z.inj_succ, Z.pow_succ_r by lia. ring.
Qed.

(** An integer score from 128 up, below 2^53, is a normal binary64
    number, exactly. *)
Lemma of_Z_normal z :
  128 <= z < 2 ^ 53 ->
  exists m e, Prim2SF (Number.of_Z z) = S754_finite false m e
              /\ 2 ^ 52 <= Z.pos m < 2 ^ 53
              /\ -45 <= e <= 0
              /\ Z.pos m = z * 2 ^ (- e).
Proof.
  intros [Hl Hu]. unfold Number.of_Z.
  rewrite of_uint63_spec, of_Z_spec.
  assert (2 ^ 53 < wB) as HwB by (vm_compute; reflexivity).
  rewrite Z.mod_small by lia.
  destruct z as [|p|p]; try lia. cbn [binary_normalize]. unfold binary_round.
  pose proof (digits2_pos_bounds p) as [Hdl Hdu].
  set (d := Z.pos (digits2_pos p)) in *.
  assert (8 <= d <= 53) as [Hd8 Hd53].
  { split.
    - destruct (Z_lt_le_dec d 8) as [Hlt|]; [|assumption].
      assert (2 ^ d <= 2 ^ 7) by (apply Z.pow_le_mono_r; lia).
      change (2 ^ 7) with 128 in *. lia.
    - destruct (Z_lt_le_dec 53 d) as [Hlt|]; [|assumption].
      assert (2 ^ 53 <= 2 ^ (d - 1)) by (apply Z.pow_le_mono_r; lia). lia. }
  rewrite Z.add_0_r, fexp_normal by lia. unfold shl_align.
  destruct (d - 53 - 0) as [|k|k] eqn:E; [|lia|].
  - assert (d = 53) as Hd by lia. rewrite Hd in *. change (53 - 1) with 52 in Hdl.
    rewrite binary_round_aux_exact by lia.
    exists p, 0. repeat split; try lia.
  - assert (2 ^ (d - 1) * 2 ^ Z.pos k = 2 ^ 52) as H52.
    { rewrite <- Z.pow_add_r by lia. f_equal. lia. }
    assert (2 ^ d * 2 ^ Z.pos k = 2 ^ 53) as H53.
    { rewrite <- Z.pow_add_r by lia. f_equal. lia. }
    assert (0 < 2 ^ Z.pos k) as Hk by (apply Z.pow_pos_nonneg; lia).
    rewrite binary_round_aux_exact.
    + exists (Pos.iter xO p k), (d - 53). split; [reflexivity|].
      rewrite pos_iter_xO. split; [nia|]. split; [lia|].
      f_equal. f_equal. lia.
    + rewrite pos_iter_xO. nia.
    + lia.
Qed.

Lemma div_eucl_div_mod a b : Z.div_eucl a b = (a / b, a mod b).
Proof. unfold Z.div, Z.modulo. now destruct (Z.div_eucl a b). Qed.

(** The quotient by 200 of a normal number that is at least 200 is a
    normal number that is at least 1. *)
Lemma div200_normal m e :
  2 ^ 52 <= Z.pos m < 2 ^ 53 -> -45 <= e <= 0 ->
  200 * 2 ^ (- e) <= Z.pos m ->
  exists m1 e1,
    SFdiv prec emax (S754_finite false m e) (S754_finite false 7036874417766400 (-45))
    = S754_finite false m1 e1
    /\ 2 ^ 52 <= Z.pos m1 < 2 ^ 53
    /\ -52 <= e1 <= -6.
Proof.
  intros [Hml Hmu] He Hge.
  assert (SFdiv_core_binary prec emax (Z.pos m) e (7036874417766400) (-45)
          = (Z.pos m * 2 ^ 53 / 7036874417766400, e - 8,
             new_location (7036874417766400) ((Z.pos m * 2 ^ 53) mod 7036874417766400))) as Hcore.
  { unfold SFdiv_core_binary. cbn [Zdigits2].
    rewrite (digits2_pos_unique m 53) by (change (53 - 1) with 52; lia).
    change (Z.pos (digits2_pos 7036874417766400)) with 53.
    replace (53 + e - (53 + -45)) with (e + 45) by lia.
    rewrite fexp_normal by lia.
    replace (Z.min (e + 45 - 53) (e - -45)) with (e - 8) by lia.
    replace (e - -45 - (e - 8)) with 53 by lia.
    rewrite Z.shiftl_mul_pow2 by lia. rewrite div_eucl_div_mod. reflexivity. }
  unfold SFdiv. rewrite Hcore. cbn [xorb].
  set (q := Z.pos m * 2 ^ 53 / 7036874417766400).
  assert (0 < 2 ^ (- e)) as Hpe by (apply Z.pow_pos_nonneg; lia).
  assert (2 ^ (8 - e) = 256 * 2 ^ (- e)) as H8e.
  { replace (8 - e) with (8 + - e) by lia. rewrite Z.pow_add_r by lia. reflexivity. }
  assert (2 ^ (8 - e) <= q) as Hq8.
  { apply Z.div_le_lower_bound; [reflexivity|]. rewrite H8e.
    change (2 ^ 53) with 9007199254740992. lia. }
  assert (2 ^ 52 <= q < 2 ^ 54) as [Hql Hqu].
  { split.
    - apply Z.div_le_lower_bound; [reflexivity|].
      change (2 ^ 53) with 9007199254740992. change (2 ^ 52) with 4503599627370496 in *.
      lia.
    - apply Z.div_lt_upper_bound; [reflexivity|].
      change (2 ^ 53) with 9007199254740992 in *. change (2 ^ 54) with 18014398509481984.
      lia. }
  destruct (Z_lt_le_dec q (2 ^ 53)) as [Hlt|Hge53].
  - destruct (binary_round_aux_normal q (e - 8)
                (new_location (7036874417766400) ((Z.pos m * 2 ^ 53) mod 7036874417766400)) 0)
      as (m1 & e1 & E & Hn & Hc); [lia|change (52 + 0) with 52; change (53 + 0) with 53; lia|lia|lia|].
    exists m1, e1. split; [exact E|]. split; [exact Hn|].
    assert (8 - e < 53) as Hlt8.
    { apply (Z.pow_lt_mono_r_iff 2); lia. }
    destruct Hc as [[-> _]|[-> _]]; lia.
  - destruct (binary_round_aux_normal q (e - 8)
                (new_location (7036874417766400) ((Z.pos m * 2 ^ 53) mod 7036874417766400)) 1)
      as (m1 & e1 & E & Hn & Hc); [lia|change (52 + 1) with 53; change (53 + 1) with 54; lia|lia|lia|].
    exists m1, e1. split; [exact E|]. split; [exact Hn|].
    assert (8 - e < 54) as Hlt8.
    { apply (Z.pow_lt_mono_r_iff 2); lia. }
    destruct Hc as [[-> _]|[-> _]]; lia.
Qed.

(** The product by 100 of a normal number that is at least 1 is at
    least 100. *)
Lemma mul100_ge m1 e1 :
  2 ^ 52 <= Z.pos m1 < 2 ^ 53 -> -52 <= e1 <= -6 ->
  exists m3 e3,
    SFmul prec emax (S754_finite false m1 e1) (S754_finite false 7036874417766400 (-46))
    = S754_finite false m3 e3
    /\ 2 ^ 52 <= Z.pos m3 < 2 ^ 53
    /\ (-45 <= e3 \/ (e3 = -46 /\ 100 * 2 ^ 46 <= Z.pos m3)).
Proof.
  intros [Hml Hmu] He. unfold SFmul. cbn [xorb].
  rewrite Pos2Z.inj_mul.
  set (P := Z.pos m1 * 7036874417766400).
  change (2 ^ 52) with 4503599627370496 in Hml.
  change (2 ^ 53) with 9007199254740992 in Hmu.
  destruct (Z_lt_le_dec P (2 ^ 105)) as [Hlt|Hge].
  - destruct (binary_round_aux_normal P (e1 + -46) loc_Exact 52)
      as (m3 & e3 & E & Hn & Hc); [lia| |lia|lia|].
    { change (52 + 52) with 104. change (53 + 52) with 105. split; [|exact Hlt].
      change (2 ^ 104) with 20282409603651670423947251286016.
      unfold P. lia. }
    exists m3, e3. split; [exact E|]. split; [exact Hn|].
    destruct Hc as [[-> Hm3]|[-> _]]; [|left; lia].
    destruct (Z.eq_dec e1 (-52)) as [->|]; [|left; lia].
    right. split; [reflexivity|].
    etransitivity; [|exact Hm3].
    apply Z.div_le_lower_bound; [reflexivity|].
    change (2 ^ 52) with 4503599627370496. change (2 ^ 46) with 70368744177664.
    unfold P. lia.
  - destruct (binary_round_aux_normal P (e1 + -46) loc_Exact 53)
      as (m3 & e3 & E & Hn & Hc); [lia| |lia|lia|].
    { change (52 + 53) with 105. change (53 + 53) with 106. split; [exact Hge|].
      change (2 ^ 106) with 81129638414606681695789005144064.
      unfold P. lia. }
    exists m3, e3. split; [exact E|]. split; [exact Hn|].
    left. destruct Hc as [[-> _]|[-> _]]; lia.
Qed.

(** [Math.round] of a normal number that is at least 100. *)
Lemma round_ge_100 x m e :
  Prim2SF x = S754_finite false m e ->
  2 ^ 52 <= Z.pos m < 2 ^ 53 ->
  -45 <= e \/ (e = -46 /\ 100 * 2 ^ 46 <= Z.pos m) ->
  100 <= Number.round x.
Proof.
  intros E [Hml Hmu] He. unfold Number.round. rewrite E.
  change (2 ^ 52) with 4503599627370496 in Hml.
  destruct (0 <=? e) eqn:E0.
  - apply Z.leb_le in E0.
    assert (1 <= 2 ^ e) by (assert (0 < 2 ^ e) by (apply Z.pow_pos_nonneg; lia); lia).
    nia.
  - apply Z.leb_gt in E0.
    assert (0 < 2 ^ (- e)) as Hp by (apply Z.pow_pos_nonneg; lia).
    assert (2 ^ (- e + 1) = 2 * 2 ^ (- e)) as ->.
    { rewrite Z.pow_add_r by lia. change (2 ^ 1) with 2. ring. }
    apply Z.div_le_lower_bound; [lia|].
    assert (100 * 2 ^ (- e) <= Z.pos m); [|lia].
    destruct He as [He|[-> Hm]].
    + assert (2 ^ (- e) <= 2 ^ 45) by (apply Z.pow_le_mono_r; lia).
      change (2 ^ 45) with 35184372088832 in *. lia.
    + exact Hm.
Qed.

Lemma round_scaled_ge_100 z :
  200 <= z < 2 ^ 53 ->
  100 <= Number.round
           (PrimFloat.mul (PrimFloat.div (Number.of_Z z) 200%float) 100%float).
Proof.
  intros Hz.
  destruct (of_Z_normal z) as (m & e & E0 & Hm & He & Hv); [lia|].
  destruct (div200_normal m e Hm He) as (m1 & e1 & E1 & Hm1 & He1).
  { rewrite Hv. assert (0 < 2 ^ (- e)) by (apply Z.pow_pos_nonneg; lia). nia. }
  destruct (mul100_ge m1 e1 Hm1 He1) as (m3 & e3 & E3 & Hm3 & He3).
  apply (round_ge_100 _ m3 e3); [|exact Hm3|exact He3].
  rewrite FloatAxioms.mul_spec, FloatAxioms.div_spec, E0.
  change (Prim2SF 200%float) with (S754_finite false 7036874417766400 (-45)).
  change (Prim2SF 100%float) with (S754_finite false 7036874417766400 (-46)).
  unfold SF64mul, SF64div. rewrite E1. exact E3.
Qed.

Lemma confidence_of_half score :
  0 <= score < 2 ^ 53 -> Content.confidence_of score = half_of_score score.
Proof.
  intros [H0 Hu]. destruct (Z_lt_le_dec score 200) as [Hlt|Hge].
  - assert (forallb (fun n => Content.confidence_of (Z.of_nat n)
                              =? half_of_score (Z.of_nat n)) (seq 0 200) = true)
      as Hall by (vm_compute; reflexivity).
    rewrite forallb_forall in Hall.
    specialize (Hall (Z.to_nat score)). rewrite Z2Nat.id in Hall by lia.
    apply Z.eqb_eq, Hall, in_seq. lia.
  - pose proof (round_scaled_ge_100 score (conj Hge Hu)) as Hr.
    unfold Content.confidence_of, Content.maxPossibleScore.
    rewrite Z.min_l by exact Hr.
    unfold half_of_score, rounds_down. cbn [existsb].
    rewrite (proj2 (Z.eqb_neq score 29)), (proj2 (Z.eqb_neq score 57)),
      (proj2 (Z.eqb_neq score 113)), (proj2 (Z.eqb_neq score 115)) by lia.
    cbn [orb]. symmetry. apply Z.min_l.
    apply Z.div_le_lower_bound; lia.
Qed.

Lemma fold_add_matches (l : list (RegExp.t * Z)) content : forall acc,
  fold_left (fun score indicator =>
               add_matches (fst indicator) (snd indicator) content score) l acc
  = acc + fold_right (fun indicator sum =>
                        snd indicator * match_count (fst indicator) content + sum) 0 l.
Proof.
  induction l as [|ind l IH]; intros acc; cbn [fold_left fold_right]; [lia|].
  rewrite IH. unfold add_matches, match_count.
  destruct (js_match (fst ind) content); lia.
Qed.

Lemma score_weighted content : Content.score content = weighted_matches content.
Proof. unfold Content.score, weighted_matches. now rewrite fold_add_matches. Qed.

Lemma weighted_matches_nonneg content : 0 <= weighted_matches content.
Proof.
  unfold weighted_matches.
  assert (forall ind, In ind Content.indicators -> 0 <= snd ind) as Hw.
  { intros ind Hin. unfold Content.indicators in Hin. simpl in Hin.
    repeat (destruct Hin as [<-|Hin]; [cbn [snd]; lia|]). destruct Hin. }
  induction Content.indicators as [|ind l IH]; cbn [fold_right]; [lia|].
  assert (0 <= match_count (fst ind) content) as Hc.
  { unfold match_count. destruct (js_match _ _); lia. }
  pose proof (Hw ind (or_introl eq_refl)) as H0.
  pose proof (IH (fun i Hi => Hw i (or_intror Hi))) as H1.
  pose proof (Z.mul_nonneg_nonneg _ _ H0 Hc). lia.
Qed.

(** C3 (amended).  [detectAndExtractTC] returns the clamped sum of its
    url, title, heading and content sub-scores.  [analyzeTCContent] does
    not: its score is the weighted number of matches of its own patterns
    in the extracted content, and its confidence is
    [min(100, round(score / 200 * 100))] of that score, computed in
    binary64; for a score below 2^53 that is half the score, a half going
    up, at most 100, except at the scores 29, 57, 113 and 115, where the
    half goes down.  The confidence is at most 100 and has no url, title
    or heading term: two pages on which [querySelector] answers alike and
    that have the same body get the same confidence, whatever their URL,
    title and heading elements. *)
Theorem call_sites_scores (d d' : Document) :
  (forall sel, querySelector d sel = querySelector d' sel) ->
  body d = body d' ->
  Popup.confidence (Popup.detectAndExtractTC d) =
    clamp (Popup.urlScore d + Popup.titleScore d + Popup.headingScore d
           + Z.min (Popup.contentScore d) 50) 0 100
  /\ Content.score (Content.extractTCContent d)
     = weighted_matches (Content.extractTCContent d)
  /\ Content.confidence (Content.analyzeTCContent d)
     = Z.min 100
         (Number.round
            (PrimFloat.mul
               (PrimFloat.div
                  (Number.of_Z (weighted_matches (Content.extractTCContent d)))
                  200%float)
               100%float))
  /\ (weighted_matches (Content.extractTCContent d) < 2 ^ 53 ->
      Content.confidence (Content.analyzeTCContent d)
      = half_of_score (weighted_matches (Content.extractTCContent d)))
  /\ Content.confidence (Content.analyzeTCContent d) <= 100
  /\ Content.confidence (Content.analyzeTCContent d) =
     Content.confidence (Content.analyzeTCContent d').
Proof.
  intros Hq Hb. split; [apply totalScore_clamp|].
  split; [apply score_weighted|].
  cbn [Content.confidence Content.analyzeTCContent].
  rewrite score_weighted.
  split; [reflexivity|]. split; [|split].
  - intros Hu. apply confidence_of_half.
    split; [apply weighted_matches_nonneg|exact Hu].
  - unfold Content.confidence_of. lia.
  - rewrite <- !score_weighted. unfold Content.extractTCContent.
    rewrite (contentContainer_ext d d' Hq Hb). reflexivity.
Qed.

Lemma call_sites_scores_witness :
  Content.confidence (Content.analyzeTCContent unmarked_page)
  = half_of_score (weighted_matches (Content.extractTCContent unmarked_page))
  /\ Content.confidence (Content.analyzeTCContent unmarked_page)
     = Content.confidence (Content.analyzeTCContent marked_page).
Proof.
  destruct (call_sites_scores unmarked_page marked_page)
    as (_ & _ & _ & Hhalf & _ & Hsame); [intros sel; reflexivity|reflexivity|].
  split; [apply Hhalf; vm_compute; reflexivity|exact Hsame].
Defined.

(* ------------------------------------------------------------------ *)
(** ** The pattern [\s+] *)

Lemma run_le p s : (run p s <= length s)%nat.
Proof. induction s as [|c s IH]; simpl; [lia|]. destruct (p c); simpl; lia. Qed.

(** A greedy star before a continuation that cannot fail takes the whole
    run. *)
Lemma greedy_star_total {R} ic cc (k : jsstr -> option R) s :
  (forall x, k x <> None) ->
  greedy_star ic cc s k = k (drop (run (cmatch ic cc) s) s).
Proof.
  intros Hk. induction s as [|c s IH]; simpl; [reflexivity|].
  destruct (cmatch ic cc c); [|reflexivity].
  rewrite IH. simpl. destruct (k (drop _ s)) eqn:E; [reflexivity|].
  now apply Hk in E.
Qed.

Lemma match_at_spaces re n s :
  source re = Plus CSpace ->
  match_at re n s =
  match s with
  | c :: s' => if Char.is_space c then Some (S (run Char.is_space s'), None) else None
  | [] => None
  end.
Proof.
  unfold match_at. intros ->. simpl. destruct s as [|c s]; [reflexivity|].
  destruct (Char.is_space c); [|reflexivity].
  rewrite greedy_star_total by discriminate.
  simpl. rewrite length_drop. pose proof (run_le Char.is_space s).
  do 2 f_equal. change (cmatch (ignoreCase re) CSpace) with Char.is_space. lia.
Qed.

Lemma replace_spaces_from n r s :
  replace_all_from re_spaces_g n (Text r) s (run Char.is_space s) = collapse r true s
  /\ replace_all_from re_spaces_g n (Text r) s 0 = collapse r false s.
Proof.
  induction s as [|c s [IH1 IH0]]; [split; reflexivity|].
  cbn [replace_all_from run collapse].
  rewrite (match_at_spaces re_spaces_g) by reflexivity.
  destruct (Char.is_space c); simpl; split; congruence.
Qed.

Lemma replace_spaces r s :
  js_replace re_spaces_g (Text r) s = collapse r false s.
Proof. unfold js_replace. simpl. apply replace_spaces_from. Qed.

Lemma normalize_collapse s :
  normalize s = trimEnd (trimStart (collapse [" "%char] false s)).
Proof. unfold normalize, trim. now rewrite replace_spaces. Qed.

Lemma collapse_no_space r b s : no_space s = true -> collapse r b s = s.
Proof.
  revert b; induction s as [|c s IH]; intros b H; simpl in *; [reflexivity|].
  apply andb_true_iff in H as [Hc Hs].
  destruct (Char.is_space c); [discriminate|]. now rewrite IH.
Qed.

(** ** Normal form of cleaned text

    [spaced]: every whitespace character is a U+0020 followed by a
    character that is not whitespace.  [headed]: the text does not start
    with whitespace.  [loose] is [spaced] but for one trailing space. *)

Lemma collapse_loose s : forall b,
  loose (collapse [" "%char] b s) = true
  /\ (b = true -> headed (collapse [" "%char] b s) = true).
Proof.
  induction s as [|c s IH]; intros b; simpl; [auto|].
  destruct (Char.is_space c) eqn:Hc.
  - destruct b.
    + apply IH.
    + destruct (IH true) as [Hl Hh]. simpl. rewrite Hl, Hh by reflexivity.
      split; [reflexivity|discriminate].
  - destruct (IH false) as [Hl _]. simpl. rewrite Hc, Hl. auto.
Qed.

Lemma trimStart_loose s :
  loose s = true -> loose (trimStart s) = true /\ headed (trimStart s) = true.
Proof.
  induction s as [|c s IH]; intros H; [auto|].
  simpl in H. apply andb_true_iff in H as [Hc Hs].
  simpl. destruct (Char.is_space c) eqn:E; [auto|].
  simpl. rewrite E, Hs. auto.
Qed.

Lemma trimEnd_head s c t : trimEnd s = c :: t -> exists s', s = c :: s'.
Proof.
  destruct s as [|a s]; simpl; [discriminate|].
  destruct (trimEnd s); [destruct (Char.is_space a)|]; intros [= <- _]; eauto.
Qed.

Lemma trimEnd_headed s : headed s = true -> headed (trimEnd s) = true.
Proof.
  destruct s as [|a s]; simpl; [auto|]. intros H.
  destruct (trimEnd s); [|exact H].
  destruct (Char.is_space a) eqn:E; [reflexivity|]. simpl. now rewrite E.
Qed.

Lemma trimEnd_loose s : loose s = true -> spaced (trimEnd s) = true.
Proof.
  induction s as [|c s IH]; intros H; [reflexivity|].
  simpl in H. apply andb_true_iff in H as [Hc Hs]. specialize (IH Hs).
  simpl. destruct (trimEnd s) as [|a t] eqn:E.
  - destruct (Char.is_space c) eqn:Ec; simpl; [reflexivity|]. now rewrite Ec.
  - destruct (trimEnd_head _ _ _ E) as [s' ->].
    change (spaced (c :: a :: t)) with
      ((negb (Char.is_space c)
        || (Ascii.eqb c " " && headed (a :: t) && nonempty (a :: t)))
       && spaced (a :: t)).
    rewrite IH, andb_true_r.
    cbn [headed nonempty] in *. now rewrite andb_true_r.
Qed.

Lemma normalize_normal s : normal (normalize s) = true.
Proof.
  rewrite normalize_collapse. unfold normal.
  destruct (collapse_loose s false) as [Hl _].
  destruct (trimStart_loose _ Hl) as [Hl' Hh].
  now rewrite trimEnd_headed, trimEnd_loose.
Qed.

Lemma spaced_loose s : spaced s = true -> loose s = true.
Proof.
  induction s as [|c s IH]; intros H; [reflexivity|].
  simpl in H. apply andb_true_iff in H as [Hc Hs]. simpl. rewrite (IH Hs), andb_true_r.
  destruct (Char.is_space c); simpl in *; [|reflexivity].
  apply andb_true_iff in Hc as [Hc _]. exact Hc.
Qed.

Lemma collapse_loose_id s : forall b,
  loose s = true -> (b = true -> headed s = true) ->
  collapse [" "%char] b s = s.
Proof.
  induction s as [|c s IH]; intros b Hs Hb; [reflexivity|].
  simpl in Hs. apply andb_true_iff in Hs as [Hc Hs]. simpl.
  destruct (Char.is_space c) eqn:Ec; simpl in Hc.
  - apply andb_true_iff in Hc as [Hc Hh].
    apply Ascii.eqb_eq in Hc. subst c.
    destruct b; [specialize (Hb eq_refl); discriminate Hb|].
    simpl. now rewrite IH.
  - now rewrite IH.
Qed.

Lemma collapse_spaced s : forall b,
  spaced s = true -> (b = true -> headed s = true) ->
  collapse [" "%char] b s = s.
Proof. intros b H. apply collapse_loose_id. now apply spaced_loose. Qed.

Lemma trimStart_headed s : headed s = true -> trimStart s = s.
Proof.
  destruct s as [|c s]; simpl; [reflexivity|].
  destruct (Char.is_space c); [discriminate|reflexivity].
Qed.

Lemma trimEnd_spaced s : spaced s = true -> trimEnd s = s.
Proof.
  induction s as [|c s IH]; intros H; [reflexivity|].
  simpl in H. apply andb_true_iff in H as [Hc Hs]. simpl. rewrite (IH Hs).
  destruct s as [|a s]; [|reflexivity].
  destruct (Char.is_space c); [|reflexivity].
  simpl in Hc. now rewrite andb_false_r in Hc.
Qed.

Lemma normalize_of_normal s : normal s = true -> normalize s = s.
Proof.
  unfold normal. intros H. apply andb_true_iff in H as [Hh Hs].
  rewrite normalize_collapse, collapse_spaced by (auto; discriminate).
  now rewrite trimStart_headed, trimEnd_spaced.
Qed.

Lemma normalize_idempotent s : normalize (normalize s) = normalize s.
Proof. apply normalize_of_normal, normalize_normal. Qed.

(** A tail of a normal text that starts on a character which is not
    whitespace is normal. *)
Lemma spaced_app p t : spaced (p ++ t) = true -> spaced t = true.
Proof.
  induction p as [|c p IH]; simpl; [auto|].
  intros H. apply andb_true_iff in H as [_ H]. auto.
Qed.

(* ------------------------------------------------------------------ *)
(** ** One-word indicators in the URL *)

Lemma variations_no_space indicator :
  no_space indicator = true ->
  Popup.variations indicator = [indicator; indicator; indicator].
Proof.
  intros H. unfold Popup.variations.
  now rewrite !replace_spaces, !collapse_no_space.
Qed.

(** C10.  The indicators without whitespace are "legal", "eula" and
    "disclaimer".  For each of them the hyphenated, concatenated and
    underscored variants are the indicator itself, so a URL that contains
    the word gets 3 x 20 = 60 points from it, the URL score is at least 60
    and the page is a match (threshold 25) whatever the title, the
    headings and the content are. *)
Theorem single_word_indicator_in_url (indicator : jsstr) (d : Document) :
  In indicator Popup.tcIndicators ->
  no_space indicator = true ->
  includes (toLowerCase (location_href d)) indicator = true ->
  List.filter no_space Popup.tcIndicators = map str ["legal"; "eula"; "disclaimer"]%string
  /\ Popup.variations indicator = [indicator; indicator; indicator]
  /\ Popup.urlHits (toLowerCase (location_href d)) indicator 0 = 3 * 20
  /\ 60 <= Popup.urlScore d
  /\ Popup.isTC (Popup.detectAndExtractTC d) = true.
Proof.
  intros Hin Hns Hurl.
  pose proof (variations_no_space indicator Hns) as Hv.
  assert (Popup.urlHits (toLowerCase (location_href d)) indicator 0 = 60) as Hhits.
  { unfold Popup.urlHits. rewrite Hv. simpl. now rewrite Hurl. }
  assert (60 <= Popup.urlScore d) as Hscore.
  { unfold Popup.urlScore.
    apply (fold_left_ge_member _ (fun a x => urlHits_ge _ x a) _ 0 indicator 60 Hin).
    intros a. rewrite urlHits_shift, Hhits. lia. }
  split; [reflexivity|]. split; [exact Hv|]. split; [exact Hhits|]. split; [exact Hscore|].
  cbn [Popup.isTC Popup.detectAndExtractTC]. apply Z.leb_le.
  pose proof (titleScore_nonneg d). pose proof (headingScore_nonneg d).
  pose proof (contentScore_nonneg d). unfold Popup.totalScore. lia.
Qed.

Lemma single_word_indicator_in_url_witness :
  List.filter no_space Popup.tcIndicators = map str ["legal"; "eula"; "disclaimer"]%string
  /\ Popup.variations (str "legal") = [str "legal"; str "legal"; str "legal"]
  /\ Popup.urlHits (toLowerCase (location_href legal_page)) (str "legal") 0 = 3 * 20
  /\ 60 <= Popup.urlScore legal_page
  /\ Popup.isTC (Popup.detectAndExtractTC legal_page) = true.
Proof.
  apply (single_word_indicator_in_url (str "legal") legal_page).
  - do 5 right. left. reflexivity.
  - reflexivity.
  - reflexivity.
Defined.

(* ------------------------------------------------------------------ *)
(** ** Cleaning twice *)

(** C7 (counterexample).  The text [detectAndExtractTC] returns for
    [cut_page] ends with a space; cleaning it again removes that space. *)
Lemma cut_text_is_not_clean :
  normalize (Popup.text (Popup.detectAndExtractTC cut_page))
  <> Popup.text (Popup.detectAndExtractTC cut_page).
Proof.
  cbn [Popup.text Popup.detectAndExtractTC].
  assert (Nat.eqb (length (normalize (substring0 10000 (Popup.mainContent cut_page))))
                  (length (substring0 10000 (Popup.mainContent cut_page))) = false) as H
    by (vm_compute; reflexivity).
  intros E. rewrite E, Nat.eqb_refl in H. discriminate H.
Qed.

(* ------------------------------------------------------------------ *)
(** ** The pattern [^.*?(terms|privacy|legal|agreement|policy)] *)

Lemma lit_prefix_length ic w t : lit_prefix ic w t = true -> (length w <= length t)%nat.
Proof.
  revert t; induction w as [|p w IH]; intros [|c t] H; simpl in *; try lia; try discriminate.
  apply andb_true_iff in H as [_ H]. apply IH in H. lia.
Qed.

Lemma rmatch_lit {R} ic n w : forall t cap (k : jsstr -> option jsstr -> option R),
  rmatch ic n (lit w) t cap k =
  if lit_prefix ic w t then k (drop (length w) t) cap else None.
Proof.
  induction w as [|p w IH]; intros t cap k; [reflexivity|].
  destruct w as [|q w].
  - destruct t as [|c t]; simpl; [reflexivity|].
    rewrite andb_true_r. now destruct (_ =? _)%char.
  - change (lit (p :: q :: w)) with (Seq (One (CChar p)) (lit (q :: w))).
    cbn [rmatch]. destruct t as [|c t]; [reflexivity|].
    cbn [lit_prefix length drop].
    destruct (cmatch ic (CChar p) c); [apply IH|reflexivity].
Qed.

Section Leading.
Variable N : nat.
Variable n : nat.

(** The continuation [match_at] starts the matcher with. *)
Let done (rest : jsstr) (cap : option jsstr) : option (nat * option jsstr) :=
  Some ((N - length rest)%nat, cap).

Let group : regex :=
  Group (Alt (lit (str "terms"))
        (Alt (lit (str "privacy"))
        (Alt (lit (str "legal"))
        (Alt (lit (str "agreement"))
             (lit (str "policy")))))).

Let found (t w : jsstr) : nat * option jsstr :=
  ((N - (length t - length w))%nat, Some (take (length w) t)).

Lemma group_at t :
  rmatch true n group t None done = option_map (found t) (keyword_at t).
Proof using Type.
  unfold group, keyword_at, Content.keywords. cbn [rmatch map List.find].
  rewrite !rmatch_lit.
  repeat match goal with
  | |- context [lit_prefix true ?w t] =>
      let E := fresh "E" in
      destruct (lit_prefix true w t) eqn:E;
      [ apply lit_prefix_length in E; unfold done, found; cbn [option_map];
        rewrite !length_drop; repeat f_equal; lia | ]
  end.
  reflexivity.
Qed.

Lemma lazy_leading t :
  no_line_terminator t = true ->
  lazy_star true CAny t (fun s1 => rmatch true n group s1 None done)
  = option_map (fun tw => found (fst tw) (snd tw)) (first_keyword t).
Proof using Type.
  induction t as [|c t IH]; intros Hlt.
  - cbn [lazy_star first_keyword]. rewrite group_at.
    destruct (keyword_at []); reflexivity.
  - cbn [lazy_star first_keyword]. rewrite group_at.
    destruct (keyword_at (c :: t)); [reflexivity|]. cbn [option_map].
    simpl in Hlt. apply andb_true_iff in Hlt as [Hc Ht].
    cbn [cmatch]. rewrite Hc. now apply IH.
Qed.
End Leading.

Lemma rmatch_bol {R} ic n r s cap (k : jsstr -> option jsstr -> option R) :
  rmatch ic n (Seq Bol r) s cap k =
  if Nat.eqb (length s) n then rmatch ic n r s cap k else None.
Proof. reflexivity. Qed.

Lemma match_at_leading s :
  no_line_terminator s = true ->
  match_at Content.re_leading (length s) s =
  option_map (fun tw => ((length s - (length (fst tw) - length (snd tw)))%nat,
                         Some (take (length (snd tw)) (fst tw))))
             (first_keyword s).
Proof.
  intros H. unfold match_at, Content.re_leading. cbn [source ignoreCase].
  rewrite rmatch_bol, Nat.eqb_refl.
  exact (lazy_leading (length s) (length s) s H).
Qed.

Lemma match_at_leading_inside n t :
  length t <> n -> match_at Content.re_leading n t = None.
Proof.
  intros H. unfold match_at, Content.re_leading. cbn [source ignoreCase].
  rewrite rmatch_bol. apply Nat.eqb_neq in H. now rewrite H.
Qed.

Lemma replace_first_leading_inside n rep t :
  (length t < n)%nat -> replace_first_from Content.re_leading n rep t = None.
Proof.
  induction t as [|c t IH]; intros H; cbn [replace_first_from];
    rewrite match_at_leading_inside by lia; [reflexivity|].
  simpl in H. rewrite IH by lia. reflexivity.
Qed.

Lemma first_keyword_tail s t w :
  first_keyword s = Some (t, w) ->
  keyword_at t = Some w
  /\ exists p, s = p ++ t
     /\ forall p' t', s = p' ++ t' -> (length p' < length p)%nat -> keyword_at t' = None.
Proof.
  revert t w; induction s as [|c s IH]; intros t w H; cbn [first_keyword] in H.
  - destruct (keyword_at []) eqn:E; [|discriminate]. injection H as <- <-.
    split; [exact E|]. exists []. split; [reflexivity|]. simpl; intros; lia.
  - destruct (keyword_at (c :: s)) eqn:E.
    + injection H as <- <-. split; [exact E|]. exists []. split; [reflexivity|].
      simpl; intros; lia.
    + destruct (IH _ _ H) as (Hk & p & -> & Hmin). split; [exact Hk|].
      exists (c :: p). split; [reflexivity|].
      intros [|c' p'] t' Heq Hlen.
      * simpl in Heq. now subst t'.
      * simpl in Heq. injection Heq as <- Heq. apply (Hmin p' t' Heq).
        simpl in Hlen. lia.
Qed.

Lemma first_keyword_none s :
  first_keyword s = None -> forall p t, s = p ++ t -> keyword_at t = None.
Proof.
  induction s as [|c s IH]; intros H p t Heq; cbn [first_keyword] in H.
  - destruct p; [|discriminate]. simpl in Heq. subst t.
    now destruct (keyword_at []).
  - destruct (keyword_at (c :: s)) eqn:E; [discriminate|].
    destruct p as [|c' p]; simpl in Heq.
    + now subst t.
    + injection Heq as _ Heq. now apply (IH H p t).
Qed.

(** What the replacement by [$1] leaves: the text from the first keyword
    on, or the whole text when there is no keyword. *)
Lemma strip_leading s :
  no_line_terminator s = true ->
  js_replace Content.re_leading Dollar1 s =
  match first_keyword s with
  | Some (t, _) => t
  | None => s
  end.
Proof.
  intros H. unfold js_replace. cbn [global Content.re_leading].
  destruct s as [|c s].
  - cbn [replace_first_from]. rewrite (match_at_leading [] H).
    destruct (first_keyword []) as [[t w]|] eqn:E; [|reflexivity].
    apply first_keyword_tail in E as (_ & p & Heq & _).
    symmetry in Heq. apply app_eq_nil in Heq as [_ ->].
    cbn [option_map fst snd expand default]. now rewrite take_nil, drop_nil.
  - cbn [replace_first_from]. rewrite (match_at_leading (c :: s) H).
    destruct (first_keyword (c :: s)) as [[t w]|] eqn:E; cbn [option_map fst snd].
    + apply first_keyword_tail in E as (Hk & p & Heq & _).
      unfold keyword_at in Hk. apply find_some in Hk as [_ Hk].
      apply lit_prefix_length in Hk. cbn [expand default].
      rewrite Heq at 2. rewrite Heq, length_app.
      replace (length p + length t - (length t - length w))%nat
        with (length p + length w)%nat by lia.
      rewrite drop_app_add'  by reflexivity. apply take_drop.
    + rewrite replace_first_leading_inside by (simpl; lia). reflexivity.
Qed.

(* ------------------------------------------------------------------ *)
(** ** Facts about single characters, by enumeration *)

Lemma all_ascii_complete c : In c all_ascii.
Proof.
  rewrite <- (ascii_nat_embedding c). apply in_map, in_seq.
  pose proof (nat_ascii_bounded c). lia.
Qed.

Lemma for_all_ascii (P : ascii -> bool) :
  forallb P all_ascii = true -> forall c, P c = true.
Proof. intros H c. rewrite forallb_forall in H. apply H, all_ascii_complete. Qed.

Lemma line_terminator_is_space c :
  Char.is_line_terminator c = true -> Char.is_space c = true.
Proof.
  intros E.
  assert (forallb (fun c => implb (Char.is_line_terminator c) (Char.is_space c))
                  all_ascii = true) as H by (vm_compute; reflexivity).
  apply for_all_ascii with (c := c) in H. now rewrite E in H.
Qed.

Lemma canonicalize_space c : Char.is_space (Char.canonicalize c) = Char.is_space c.
Proof.
  assert (forallb (fun c => Bool.eqb (Char.is_space (Char.canonicalize c))
                                     (Char.is_space c)) all_ascii = true) as H
    by (vm_compute; reflexivity).
  apply for_all_ascii with (c := c) in H. now apply Bool.eqb_prop in H.
Qed.

(** Against a lower-case ASCII letter of the pattern, the comparison of
    the [i] flag is the comparison of the lower-cased input. *)
Lemma fold_to_lower p c :
  Char.between 97 122 p = true ->
  Ascii.eqb (Char.canonicalize c) (Char.canonicalize p) = Ascii.eqb (Char.toLowerCase c) p.
Proof.
  intros Hp.
  assert (forallb
            (fun p => if Char.between 97 122 p then
                        forallb (fun c => Bool.eqb
                           (Ascii.eqb (Char.canonicalize c) (Char.canonicalize p))
                           (Ascii.eqb (Char.toLowerCase c) p)) all_ascii
                      else true)
            all_ascii = true) as H by (vm_compute; reflexivity).
  pose proof (for_all_ascii _ H p) as H1. cbv beta in H1. rewrite Hp in H1.
  pose proof (for_all_ascii _ H1 c) as H2. cbv beta in H2.
  now apply Bool.eqb_prop in H2.
Qed.

Lemma lit_matches_no_space p c :
  cmatch true (CChar p) c = true -> Char.is_space p = false -> Char.is_space c = false.
Proof.
  simpl. intros H Hp. apply Ascii.eqb_eq in H.
  now rewrite <- canonicalize_space, H, canonicalize_space.
Qed.

Lemma spaced_no_line_terminator s : spaced s = true -> no_line_terminator s = true.
Proof.
  induction s as [|c s IH]; intros H; [reflexivity|].
  simpl in H. apply andb_true_iff in H as [Hc Hs]. simpl. rewrite (IH Hs), andb_true_r.
  destruct (Char.is_line_terminator c) eqn:E; [|reflexivity].
  rewrite (line_terminator_is_space c E) in Hc. simpl in Hc.
  apply andb_true_iff in Hc as [Hc _]. apply andb_true_iff in Hc as [Hc _].
  apply Ascii.eqb_eq in Hc. subst c. discriminate E.
Qed.

(* ------------------------------------------------------------------ *)
(** ** The text [extractTCContent] returns *)

Lemma lit_prefix_lower w : forall t,
  forallb (Char.between 97 122) w = true ->
  lit_prefix true w t = startsWith (toLowerCase t) w.
Proof.
  induction w as [|p w IH]; intros [|c t] H; try reflexivity.
  simpl in H. apply andb_true_iff in H as [Hp Hw].
  cbn [lit_prefix startsWith toLowerCase map cmatch].
  rewrite (fold_to_lower p c Hp). f_equal. now apply IH.
Qed.

Lemma keyword_at_is_keyword_at t :
  is_keyword_at t = match keyword_at t with Some _ => true | None => false end.
Proof.
  unfold is_keyword_at, keyword_at, Content.keywords.
  cbn [map existsb List.find].
  rewrite <- !lit_prefix_lower by reflexivity.
  repeat match goal with
  | |- context [lit_prefix true ?w t] => destruct (lit_prefix true w t); [reflexivity|]
  end.
  reflexivity.
Qed.

Lemma keyword_at_headed t w :
  keyword_at t = Some w -> headed t = true /\ nonempty t = true.
Proof.
  unfold keyword_at. intros H. apply find_some in H as [Hin H].
  destruct t as [|c t].
  - unfold Content.keywords in Hin. simpl in Hin.
    repeat destruct Hin as [<-|Hin]; try discriminate H. destruct Hin.
  - split; [|reflexivity]. simpl.
    unfold Content.keywords in Hin. simpl in Hin.
    repeat destruct Hin as [<-|Hin]; try destruct Hin;
      cbn [lit_prefix] in H; apply andb_true_iff in H as [H _];
      now rewrite (lit_matches_no_space _ _ H).
Qed.

Lemma extractTCContent_strip d :
  Content.extractTCContent d =
  match first_keyword (cleaned d) with
  | Some (t, _) => t
  | None => cleaned d
  end.
Proof.
  unfold Content.extractTCContent. apply strip_leading, spaced_no_line_terminator.
  pose proof (normalize_normal (element_text (Content.contentContainer d))) as H.
  unfold normal in H. now apply andb_true_iff in H as [_ H].
Qed.

Lemma extractTCContent_normal d : normal (Content.extractTCContent d) = true.
Proof.
  rewrite extractTCContent_strip. pose proof (normalize_normal (element_text (Content.contentContainer d))) as H.
  fold (cleaned d) in H.
  destruct (first_keyword (cleaned d)) as [[t w]|] eqn:E; [|exact H].
  apply first_keyword_tail in E as (Hk & p & Heq & _).
  apply keyword_at_headed in Hk as [Hh _].
  unfold normal in *. rewrite Hh. apply andb_true_iff in H as [_ H].
  rewrite Heq in H. now apply spaced_app in H.
Qed.

(** C9.  [extractTCContent] returns the cleaned text of the container
    from the first place on where, ignoring case, one of "terms",
    "privacy", "legal", "agreement", "policy" stands: everything before
    it is deleted, and no earlier place has one of the words.  Without
    any of the words the cleaned text comes back unchanged.  The score
    and the returned excerpt of [analyzeTCContent] are computed from
    that text. *)
Theorem leading_text_is_removed (d : Document) :
  ((exists before,
       cleaned d = before ++ Content.extractTCContent d
       /\ is_keyword_at (Content.extractTCContent d) = true
       /\ forall p t, cleaned d = p ++ t -> (length p < length before)%nat ->
                      is_keyword_at t = false)
   \/ (Content.extractTCContent d = cleaned d
       /\ forall p t, cleaned d = p ++ t -> is_keyword_at t = false))
  /\ Content.content (Content.analyzeTCContent d)
     = substring0 10000 (Content.extractTCContent d)
  /\ Content.confidence (Content.analyzeTCContent d)
     = Content.confidence_of (Content.score (Content.extractTCContent d)).
Proof.
  split; [|split; reflexivity].
  rewrite extractTCContent_strip.
  destruct (first_keyword (cleaned d)) as [[t w]|] eqn:E.
  - left. apply first_keyword_tail in E as (Hk & p & Heq & Hmin).
    exists p. split; [exact Heq|]. split.
    + now rewrite keyword_at_is_keyword_at, Hk.
    + intros p' t' Hp Hlen. rewrite keyword_at_is_keyword_at.
      now rewrite (Hmin p' t' Hp Hlen).
  - right. split; [reflexivity|]. intros p t Hp.
    rewrite keyword_at_is_keyword_at. now rewrite (first_keyword_none _ E p t Hp).
Qed.

(* ------------------------------------------------------------------ *)
(** ** Cleaning the returned text again *)

Lemma take_headed n s : headed s = true -> headed (take n s) = true.
Proof. destruct n, s; simpl; auto. Qed.

Lemma take_loose s : forall n, spaced s = true -> loose (take n s) = true.
Proof.
  induction s as [|c s IH]; intros [|n] H; try reflexivity.
  simpl in H. apply andb_true_iff in H as [Hc Hs].
  cbn [take loose]. rewrite (IH n Hs), andb_true_r.
  destruct (Char.is_space c); simpl in *; [|reflexivity].
  apply andb_true_iff in Hc as [Hc _]. apply andb_true_iff in Hc as [Hc Hh].
  now rewrite Hc, take_headed.
Qed.

(** On a prefix of a normal text, cleaning only trims the end. *)
Lemma normalize_cut n s :
  normal s = true -> normalize (substring0 n s) = trimEnd (substring0 n s).
Proof.
  unfold normal, substring0. intros H. apply andb_true_iff in H as [Hh Hs].
  rewrite normalize_collapse.
  rewrite collapse_loose_id by (auto using take_loose; discriminate).
  now rewrite trimStart_headed by now apply take_headed.
Qed.

(** A text without two whitespace characters in a row ends in at most
    one space: trimming its end removes that space or nothing. *)
Lemma trimEnd_loose_cases s :
  loose s = true -> s = trimEnd s \/ s = trimEnd s ++ [" "%char].
Proof.
  induction s as [|c s IH]; intros H; [now left|].
  cbn [loose] in H. apply andb_true_iff in H as [Hc Hs]. specialize (IH Hs).
  cbn [trimEnd]. destruct (trimEnd s) as [|a t] eqn:E.
  - destruct IH as [->| ->].
    + destruct (Char.is_space c) eqn:Ec; [|now left].
      cbn [negb orb] in Hc. apply andb_true_iff in Hc as [Hc _].
      apply Ascii.eqb_eq in Hc. subst c. now right.
    + cbn [app headed] in Hc. change (Char.is_space " ") with true in Hc.
      cbn [negb] in Hc. rewrite andb_false_r, orb_false_r in Hc.
      apply negb_true_iff in Hc. rewrite Hc. now right.
  - destruct IH as [IH|IH]; [left|right]; rewrite IH at 1; reflexivity.
Qed.

(** Cleaning a prefix of a normal text again removes at most one
    character, a space at its end. *)
Lemma normalize_cut_cases n s :
  normal s = true ->
  substring0 n s = normalize (substring0 n s)
  \/ substring0 n s = normalize (substring0 n s) ++ [" "%char].
Proof.
  intros H. rewrite (normalize_cut n s H). apply trimEnd_loose_cases.
  unfold normal in H. apply andb_true_iff in H as [_ H].
  unfold substring0. now apply take_loose.
Qed.

(** C7 (amended).  Cleaning (every run of whitespace to one space, then
    trim) is idempotent.  The cleaned text each extraction routine
    computes, [mainContent] in [detectAndExtractTC] and the value of
    [extractTCContent], is left as it is by cleaning it again.  On the
    returned field, cut at 10,000 characters, cleaning again only trims
    the end, that is removes at most the space the cut may have left: the
    field is its cleaned form, or its cleaned form followed by one space.
    Cleaning changes nothing when the cleaned text has at most 10,000
    characters. *)
Theorem cleaning_is_idempotent (s : jsstr) (d : Document) :
  normalize (normalize s) = normalize s
  /\ normalize (Popup.mainContent d) = Popup.mainContent d
  /\ normalize (Content.extractTCContent d) = Content.extractTCContent d
  /\ normalize (Popup.text (Popup.detectAndExtractTC d))
     = trimEnd (Popup.text (Popup.detectAndExtractTC d))
  /\ normalize (Content.content (Content.analyzeTCContent d))
     = trimEnd (Content.content (Content.analyzeTCContent d))
  /\ (Popup.text (Popup.detectAndExtractTC d)
      = normalize (Popup.text (Popup.detectAndExtractTC d))
      \/ Popup.text (Popup.detectAndExtractTC d)
         = normalize (Popup.text (Popup.detectAndExtractTC d)) ++ str " ")
  /\ (Content.content (Content.analyzeTCContent d)
      = normalize (Content.content (Content.analyzeTCContent d))
      \/ Content.content (Content.analyzeTCContent d)
         = normalize (Content.content (Content.analyzeTCContent d)) ++ str " ")
  /\ ((length (Popup.mainContent d) <= 10000)%nat ->
      normalize (Popup.text (Popup.detectAndExtractTC d))
      = Popup.text (Popup.detectAndExtractTC d))
  /\ ((length (Content.extractTCContent d) <= 10000)%nat ->
      normalize (Content.content (Content.analyzeTCContent d))
      = Content.content (Content.analyzeTCContent d)).
Proof.
  pose proof (normalize_normal (Popup.rawText d)) as Hm. fold (Popup.mainContent d) in Hm.
  pose proof (extractTCContent_normal d) as Hc.
  split; [apply normalize_idempotent|].
  split; [now apply normalize_of_normal|].
  split; [now apply normalize_of_normal|].
  split; [now apply normalize_cut|].
  split; [now apply normalize_cut|].
  split; [exact (normalize_cut_cases 10000 _ Hm)|].
  split; [exact (normalize_cut_cases 10000 _ Hc)|].
  cbn [Popup.text Popup.detectAndExtractTC Content.content Content.analyzeTCContent].
  split; intros Hlen; rewrite (substring0_short _ _ Hlen); now apply normalize_of_normal.
Qed.

Lemma cleaning_is_idempotent_witness :
  normalize (Popup.text (Popup.detectAndExtractTC title_only_page))
  = Popup.text (Popup.detectAndExtractTC title_only_page)
  /\ normalize (Content.content (Content.analyzeTCContent title_only_page))
     = Content.content (Content.analyzeTCContent title_only_page).
Proof.
  destruct (cleaning_is_idempotent [] title_only_page)
    as (_ & _ & _ & _ & _ & _ & _ & Hp & Hc).
  split; [apply Hp|apply Hc]; apply Nat.leb_le; vm_compute; reflexivity.
Defined.

(* ------------------------------------------------------------------ *)
(** ** Counting words *)

Example tokens_ex :
  tokens (str "  you  hereby agree ") = [str "you"; str "hereby"; str "agree"].
Proof. reflexivity. Qed.

Lemma split_spaced n s : forall acc,
  spaced s = true ->
  length (split_from re_spaces n s 0 acc) = S (count_spaces s).
Proof.
  induction s as [|c s IH]; intros acc H; [reflexivity|].
  simpl in H. apply andb_true_iff in H as [Hc Hs].
  cbn [split_from]. rewrite (match_at_spaces re_spaces) by reflexivity.
  unfold count_spaces. cbn [List.filter].
  destruct (Char.is_space c); simpl in Hc.
  - apply andb_true_iff in Hc as [Hc _]. apply andb_true_iff in Hc as [_ Hh].
    destruct s as [|a s]; [reflexivity|]. simpl in Hh.
    cbn [run]. destruct (Char.is_space a) eqn:Ea; [discriminate|].
    cbn [length]. f_equal. rewrite (IH [] Hs). unfold count_spaces. reflexivity.
  - apply (IH _ Hs).
Qed.

Lemma tokens_spaced s :
  spaced s = true ->
  length (tokens s) = (count_spaces s + if headed s && nonempty s then 1 else 0)%nat.
Proof.
  induction s as [|c s IH]; intros H; [reflexivity|].
  simpl in H. apply andb_true_iff in H as [Hc Hs]. specialize (IH Hs).
  unfold count_spaces in *. cbn [tokens List.filter headed nonempty].
  destruct (Char.is_space c) eqn:Ec; simpl in Hc.
  - apply andb_true_iff in Hc as [Hc Hn]. apply andb_true_iff in Hc as [_ Hh].
    rewrite Hh, Hn in IH. simpl in *. lia.
  - simpl. destruct (headed s && nonempty s).
    + destruct (tokens s) as [|w ws]; simpl in *; lia.
    + simpl in *. lia.
Qed.

Lemma split_counts_tokens s :
  normal s = true -> s <> [] ->
  length (js_split re_spaces s) = length (tokens s).
Proof.
  unfold normal. intros H Hne. apply andb_true_iff in H as [Hh Hs].
  rewrite (tokens_spaced s Hs), Hh.
  destruct s as [|c s]; [contradiction|].
  unfold js_split. rewrite (split_spaced _ _ [] Hs). simpl. lia.
Qed.

(** C6 (counterexample).  For the empty page the content script reports
    one word where the text has no token, and the object the popup's
    [detectAndExtractTC] returns has no [wordCount] at all. *)
Lemma wordCount_of_empty_page :
  Content.extractTCContent empty_document = []
  /\ Content.wordCount (Content.analyzeTCContent empty_document) = 1%nat
  /\ length (tokens (Content.extractTCContent empty_document)) = 0%nat
  /\ get (Popup.object_of (Popup.detectAndExtractTC empty_document)) "wordCount" = None.
Proof. repeat split. Qed.

(** C6 (amended).  The object [analyzeTCContent] returns has a field
    [wordCount]; when the extracted text is not empty it is the number of
    whitespace-delimited tokens of that text.  The object
    [detectAndExtractTC] returns has no such field. *)
Theorem wordCount_counts_tokens (d : Document) :
  Content.extractTCContent d <> [] ->
  get (Content.object_of (Content.analyzeTCContent d)) "wordCount"
    = Some (VNum (Z.of_nat (length (tokens (Content.extractTCContent d)))))
  /\ get (Popup.object_of (Popup.detectAndExtractTC d)) "wordCount" = None.
Proof.
  intros Hne. split; [|reflexivity].
  cbn [get Content.object_of String.eqb Ascii.eqb Bool.eqb Content.wordCount
       Content.analyzeTCContent].
  now rewrite (split_counts_tokens _ (extractTCContent_normal d) Hne).
Qed.

Lemma wordCount_counts_tokens_witness :
  get (Content.object_of (Content.analyzeTCContent title_only_page)) "wordCount"
    = Some (VNum 3)
  /\ get (Popup.object_of (Popup.detectAndExtractTC title_only_page)) "wordCount" = None.
Proof.
  apply (wordCount_counts_tokens title_only_page). discriminate.
Defined.

(* ------------------------------------------------------------------ *)
(** ** The cache: who checks the age of an entry *)

(** C8 (counterexample).  The popup stores an analysis at time 0 and,
    opened again on the same page two days later, is served that same
    entry: its read of the cache looks at no clock. *)
Lemma popup_serves_two_day_old_entry :
  let w0 := {| Cache.now := 0; Cache.local := ∅ |} in
  let w1 := Cache.popup_summarized title_only_page
              (str "A short summary.") (str "{}") (str "{}") w0 in
  let w2 := Cache.elapse two_days w1 in
  24 * 60 * 60 * 1000 <= Cache.now w2 - Cache.now w1
  /\ Cache.popup_opened title_only_page w2
     = Some (Cache.Analysis (str "A short summary.") (str "{}") (str "{}")).
Proof.
  cbv zeta. split; [vm_compute; discriminate|].
  unfold Cache.popup_opened, Cache.popup_summarized.
  assert (Popup.canAnalyzePage (location_href title_only_page)
          && Popup.isTC (Popup.detectAndExtractTC title_only_page) = true) as ->
    by (vm_compute; reflexivity).
  cbn [Cache.local Cache.elapse]. apply lookup_insert_eq.
Qed.

Lemma expired_spec oneWeekAgo key item :
  Cache.expired oneWeekAgo key item = true <->
  startsWith key (str "summary_") = true
  /\ exists timestamp, Cache.timestamp_of item = Some timestamp
                       /\ timestamp <> 0 /\ timestamp < oneWeekAgo.
Proof.
  unfold Cache.expired. rewrite andb_true_iff.
  destruct (Cache.timestamp_of item) as [t|].
  - rewrite andb_true_iff, negb_true_iff, Z.eqb_neq, Z.ltb_lt.
    split.
    + intros (Hk & Hz & Hlt). split; [exact Hk|]. exists t. auto.
    + intros (Hk & t' & [= <-] & Hz & Hlt). auto.
  - split; [intros [_ H]; discriminate H|intros (_ & t & H & _); discriminate H].
Qed.

Lemma cleanup_lookup w key :
  Cache.local (Cache.cleanupOldCache w) !! key =
  match Cache.local w !! key with
  | Some item =>
      if Cache.expired (Cache.now w - 7 * 24 * 60 * 60 * 1000) key item then None
      else Some item
  | None => None
  end.
Proof.
  unfold Cache.cleanupOldCache. cbn [Cache.local].
  set (old := Cache.now w - 7 * 24 * 60 * 60 * 1000).
  set (keys := fst <$> _).
  assert (forall k, k ∈ keys <->
            exists item, Cache.local w !! k = Some item /\ Cache.expired old k item = true)
    as Hkeys.
  { intros k. unfold keys. rewrite list_elem_of_fmap. split.
    - intros ([k' item] & -> & Hin). apply list_elem_of_filter in Hin as [Hexp Hin].
      apply elem_of_map_to_list in Hin. exists item. split; [exact Hin|].
      simpl in Hexp. now apply Is_true_true in Hexp.
    - intros (item & Hl & Hexp). exists (k, item). split; [reflexivity|].
      apply list_elem_of_filter. split; [simpl; now apply Is_true_true|].
      now apply elem_of_map_to_list. }
  destruct (Cache.local w !! key) as [item|] eqn:Hl.
  - destruct (Cache.expired old key item) eqn:Hexp.
    + apply lookup_foldr_delete, Hkeys. eauto.
    + rewrite lookup_foldr_delete_not_elem_of; [exact Hl|].
      rewrite Hkeys. intros (item' & Hl' & Hexp'). congruence.
  - destruct (decide (key ∈ keys)) as [Hin|Hin].
    + now apply lookup_foldr_delete.
    + now rewrite lookup_foldr_delete_not_elem_of.
Qed.

(** C8 (amended).  The age of an entry is checked by [getCachedSummary]
    of background.js: it answers with a summary only for an entry under
    its key whose timestamp is less than 24 hours old, and with [null]
    otherwise.  The popup's own read of the cache (popup.js) checks no
    age: on a page it can analyze and finds to be a T&C page it is served
    whatever lies under its key, however much time has passed.  [cleanupOldCache] removes an entry exactly when its key
    starts with "summary_" and its timestamp is a number other than 0
    that lies more than 7 days back, and changes no other entry. *)
Theorem cache_age_policy :
  (forall url w summary,
      Cache.getCachedSummary url w = Some summary <->
      exists timestamp u,
        Cache.local w !! Cache.cacheKey url = Some (Cache.CacheData summary timestamp u)
        /\ Cache.now w - timestamp < 24 * 60 * 60 * 1000)
  /\ (forall d w dt,
        Cache.popup_opened d (Cache.elapse dt w) =
        if Popup.canAnalyzePage (location_href d) && Popup.isTC (Popup.detectAndExtractTC d)
        then Cache.local w !! Cache.popup_cacheKey (location_href d)
        else None)
  /\ (forall w key item,
        Cache.local w !! key = Some item ->
        (Cache.local (Cache.cleanupOldCache w) !! key = None <->
         startsWith key (str "summary_") = true
         /\ exists timestamp,
              Cache.timestamp_of item = Some timestamp /\ timestamp <> 0
              /\ timestamp < Cache.now w - 7 * 24 * 60 * 60 * 1000))
  /\ (forall w key item,
        Cache.local (Cache.cleanupOldCache w) !! key = Some item ->
        Cache.local w !! key = Some item).
Proof.
  split; [|split; [|split]].
  - intros url w summary. unfold Cache.getCachedSummary.
    destruct (Cache.local w !! Cache.cacheKey url) as [[s t u|s c m]|] eqn:Hl;
      cbn [Cache.timestamp_of Cache.summary_of].
    + destruct (Cache.now w - t <? 24 * 60 * 60 * 1000) eqn:Hv.
      * apply Z.ltb_lt in Hv. split.
        -- intros [= <-]. eauto.
        -- intros (t' & u' & [= <- <- <-] & _). reflexivity.
      * apply Z.ltb_ge in Hv. split; [discriminate|].
        intros (t' & u' & [= <- <- <-] & Hlt). lia.
    + split; [discriminate|]. intros (t' & u' & H & _). discriminate H.
    + split; [discriminate|]. intros (t' & u' & H & _). discriminate H.
  - reflexivity.
  - intros w key item Hl. rewrite cleanup_lookup, Hl, <- expired_spec.
    destruct (Cache.expired _ key item); split; auto; discriminate.
  - intros w key item. rewrite cleanup_lookup.
    destruct (Cache.local w !! key) as [item'|]; [|discriminate].
    destruct (Cache.expired _ key item'); [discriminate|auto].
Qed.

(** The policy at work: a summary cached by the background script is
    answered after 23 hours, not after 25, is still stored after 6 days
    of cleanups and gone after 8. *)
Example cache_run :
  let w1 := Cache.cacheSummary terms_url (str "A short summary.")
              {| Cache.now := 1700000000000; Cache.local := ∅ |} in
  let hour := 60 * 60 * 1000 in
  Cache.getCachedSummary terms_url (Cache.elapse (23 * hour) w1) = Some (str "A short summary.")
  /\ Cache.getCachedSummary terms_url (Cache.elapse (25 * hour) w1) = None
  /\ Cache.local (Cache.cleanupOldCache (Cache.elapse (6 * 24 * hour) w1))
       !! Cache.cacheKey terms_url <> None
  /\ Cache.local (Cache.cleanupOldCache (Cache.elapse (8 * 24 * hour) w1))
       !! Cache.cacheKey terms_url = None.
Proof.
  cbv zeta. unfold Cache.getCachedSummary, Cache.cacheSummary, Cache.elapse.
  cbn [Cache.local Cache.now]. rewrite !cleanup_lookup. cbn [Cache.local Cache.now].
  rewrite !lookup_insert_eq. repeat split; try reflexivity. discriminate.
Qed.

(* ================================================================== *)
(** * Further properties of the code *)

(* ------------------------------------------------------------------ *)
(** ** [extractTextContent] and [handleTCAnalysis] (background.js) *)

Lemma trimStart_is_headed s : headed (trimStart s) = true.
Proof.
  induction s as [|c s IH]; [reflexivity|]. simpl.
  destruct (Char.is_space c) eqn:E; [exact IH|]. simpl. now rewrite E.
Qed.

Lemma trim_headed s : headed (trim s) = true.
Proof. unfold trim. apply trimEnd_headed, trimStart_is_headed. Qed.

Lemma take_longer (a b : nat) (l : jsstr) :
  (a < b)%nat -> (a < length l)%nat -> (a < length (take b l))%nat.
Proof. intros Hab Hl. rewrite length_take. lia. Qed.

Lemma five_hundred_below_cap : (500 < 50000)%nat.
Proof. apply Nat.ltb_lt. vm_compute. reflexivity. Qed.

Lemma first_substantial_cases qs sels content :
  Background.first_substantial qs sels content = content
  \/ exists sel e, In sel sels /\ qs sel = Some e
       /\ (500 < length (trim (innerText e)))%nat
       /\ Background.first_substantial qs sels content = innerText e.
Proof.
  induction sels as [|sel rest IH]; simpl; [now left|].
  destruct (qs sel) as [e|] eqn:Hq.
  - destruct (500 <? length (trim (innerText e)))%nat eqn:Hlen.
    + right. exists sel, e. apply Nat.ltb_lt in Hlen. auto.
    + destruct IH as [IH|(sel' & e' & Hin & Hq' & Hl & IH)]; [now left|].
      right. exists sel', e'. auto.
  - destruct IH as [IH|(sel' & e' & Hin & Hq' & Hl & IH)]; [now left|].
    right. exists sel', e'. auto.
Qed.

Lemma first_substantial_first qs before sel after e content :
  (forall s e', In s before -> qs s = Some e' -> (length (trim (innerText e')) <= 500)%nat) ->
  qs sel = Some e -> (500 < length (trim (innerText e)))%nat ->
  Background.first_substantial qs (before ++ sel :: after) content = innerText e.
Proof.
  intros Hb Hq He. induction before as [|s before IH]; simpl.
  - rewrite Hq. apply Nat.ltb_lt in He. now rewrite He.
  - destruct (qs s) as [e'|] eqn:Hs.
    + pose proof (Hb s e' (or_introl eq_refl) Hs) as Hle.
      apply Nat.ltb_ge in Hle. rewrite Hle. apply IH.
      intros s0 e0 Hin. apply Hb. now right.
    + apply IH. intros s0 e0 Hin. apply Hb. now right.
Qed.

Lemma first_substantial_none qs sels content :
  (forall s e, In s sels -> qs s = Some e -> (length (trim (innerText e)) <= 500)%nat) ->
  Background.first_substantial qs sels content = content.
Proof.
  intros H. induction sels as [|s sels IH]; simpl; [reflexivity|].
  destruct (qs s) as [e|] eqn:Hs.
  - pose proof (H s e (or_introl eq_refl) Hs) as Hle.
    apply Nat.ltb_ge in Hle. rewrite Hle. apply IH.
    intros s0 e0 Hin. apply H. now right.
  - apply IH. intros s0 e0 Hin. apply H. now right.
Qed.

(** The content [extractTextContent] settles on, before the final trim
    and cut, is empty or has more than 500 characters once trimmed. *)
Lemma extractTextContent_choice (d : Document) :
  exists content,
    Background.extractTextContent d = substring0 50000 (trim content)
    /\ (content = [] \/ (500 < length (trim content))%nat).
Proof.
  unfold Background.extractTextContent.
  destruct (first_substantial_cases (querySelector d) Background.selectors [])
    as [-> | (sel & e & _ & _ & Hlen & ->)].
  - cbn [Background.is_empty orb].
    destruct (500 <? length (trim (innerText (body d))))%nat eqn:Hb.
    + exists (innerText (body d)). split; [reflexivity|]. right. now apply Nat.ltb_lt.
    + exists []. auto.
  - assert (Background.is_empty (innerText e)
            || (length (trim (innerText e)) <? 500)%nat = false) as ->.
    { apply orb_false_iff. split.
      - destruct (innerText e); [simpl in Hlen; lia|reflexivity].
      - apply Nat.ltb_ge. lia. }
    exists (innerText e). auto.
Qed.

Lemma background_text_empty_or_substantial_aux (d : Document) :
  Background.extractTextContent d = []
  \/ (500 < length (Background.extractTextContent d) <= 50000)%nat.
Proof.
  destruct (extractTextContent_choice d) as (content & -> & Hc).
  destruct Hc as [-> | Hlen]; [now left|]. right. split.
  - apply take_longer; [apply five_hundred_below_cap|exact Hlen].
  - apply length_substring0.
Qed.

(** X1.  The text [extractTextContent] returns is either empty or has
    more than 500 and at most 50,000 characters, and it never starts with
    whitespace. *)
Theorem background_text_empty_or_substantial (d : Document) :
  headed (Background.extractTextContent d) = true
  /\ (Background.extractTextContent d = []
      \/ (500 < length (Background.extractTextContent d) <= 50000)%nat).
Proof.
  split; [|apply background_text_empty_or_substantial_aux].
  destruct (extractTextContent_choice d) as (content & -> & _).
  apply take_headed, trim_headed.
Qed.

(** X2.  In [extractTextContent] the first selector of the list whose
    element has more than 500 characters of trimmed text gives the
    content: the result is that element's text, trimmed and cut at
    50,000. *)
Theorem background_first_selector_wins (d : Document) before sel after e :
  Background.selectors = before ++ sel :: after ->
  (forall s e', In s before -> querySelector d s = Some e' ->
                (length (trim (innerText e')) <= 500)%nat) ->
  querySelector d sel = Some e ->
  (500 < length (trim (innerText e)))%nat ->
  Background.extractTextContent d = substring0 50000 (trim (innerText e)).
Proof.
  intros Hsel Hb Hq He. unfold Background.extractTextContent. rewrite Hsel.
  rewrite (first_substantial_first _ _ _ _ e [] Hb Hq He).
  assert (Background.is_empty (innerText e)
          || (length (trim (innerText e)) <? 500)%nat = false) as ->.
  { apply orb_false_iff. split.
    - destruct (innerText e); [simpl in He; lia|reflexivity].
    - apply Nat.ltb_ge. lia. }
  reflexivity.
Qed.

Lemma background_first_selector_wins_witness :
  Background.extractTextContent article_page
  = substring0 50000 (trim (innerText long_body)).
Proof.
  apply (background_first_selector_wins article_page [ByTag "main"%string]
           (ByTag "article"%string) (drop 2 Background.selectors) long_body).
  - reflexivity.
  - intros s e' [<-|[]] [= <-]. apply Nat.leb_le. vm_compute. reflexivity.
  - reflexivity.
  - apply Nat.ltb_lt. vm_compute. reflexivity.
Defined.

(** X3.  When no selector of [extractTextContent] finds an element with
    more than 500 characters of trimmed text, the body's text is used if
    it has more than 500 characters once trimmed, and the result is empty
    otherwise: a short page yields no text at all. *)
Theorem background_falls_back_to_body (d : Document) :
  (forall s e, In s Background.selectors -> querySelector d s = Some e ->
               (length (trim (innerText e)) <= 500)%nat) ->
  Background.extractTextContent d =
    if (500 <? length (trim (innerText (body d))))%nat
    then substring0 50000 (trim (innerText (body d)))
    else [].
Proof.
  intros H. unfold Background.extractTextContent.
  rewrite (first_substantial_none _ _ [] H). cbn [Background.is_empty orb].
  now destruct (500 <? length (trim (innerText (body d))))%nat.
Qed.

Lemma background_falls_back_to_body_witness :
  Background.extractTextContent banner_page
  = if (500 <? length (trim (innerText (body banner_page))))%nat
    then substring0 50000 (trim (innerText (body banner_page)))
    else [].
Proof.
  apply (background_falls_back_to_body banner_page).
  intros s e Hin Hq. unfold Background.selectors in Hin. simpl in Hin.
  repeat destruct Hin as [<-|Hin]; try discriminate Hq. destruct Hin.
Defined.

(** X4.  [handleTCAnalysis] answers with a page only when the scripting
    API is there and the injected function ran; the text it then sends
    is that of [extractTextContent], with more than 500 and at most
    50,000 characters.  In every other case it answers with an error, and
    a page without enough text gets "No content found". *)
Theorem handleTCAnalysis_sends_substantial_text scripting result text url title :
  Tabs.handleTCAnalysis scripting result = Tabs.Page text url title ->
  scripting = true
  /\ (exists d, result = Tabs.Ran d
        /\ text = Background.extractTextContent d
        /\ url = location_href d /\ title = document_title d)
  /\ (500 < length text <= 50000)%nat.
Proof.
  unfold Tabs.handleTCAnalysis. destruct scripting; [|discriminate].
  destruct result as [d| |m]; try discriminate. cbn [negb].
  destruct (Background.is_empty (Background.extractTextContent d)) eqn:E; [discriminate|].
  intros [= <- <- <-]. split; [reflexivity|]. split; [eauto|].
  destruct (background_text_empty_or_substantial_aux d) as [H|H]; [|exact H].
  rewrite H in E. discriminate E.
Qed.

Lemma handleTCAnalysis_sends_substantial_text_witness :
  (500 < length (Background.extractTextContent article_page) <= 50000)%nat.
Proof.
  apply (handleTCAnalysis_sends_substantial_text true (Tabs.Ran article_page)
           (Background.extractTextContent article_page)
           (location_href article_page) (document_title article_page)).
  vm_compute. reflexivity.
Defined.

(* ------------------------------------------------------------------ *)
(** ** The summary cache of background.js *)

Lemma startsWith_app p x : startsWith (p ++ x) p = true.
Proof.
  induction p as [|c p IH]; simpl; [now destruct x|].
  now rewrite Ascii.eqb_refl.
Qed.

Lemma cacheKey_prefixed url : startsWith (Cache.cacheKey url) (str "summary_") = true.
Proof. apply startsWith_app. Qed.

Lemma popup_cacheKey_prefixed url :
  startsWith (Cache.popup_cacheKey url) (str "summary_") = true.
Proof. apply startsWith_app. Qed.

Lemma cached_summary_round_trip_aux (url summary : jsstr) (w : Cache.world) :
  Cache.getCachedSummary url (Cache.cacheSummary url summary w) = Some summary.
Proof.
  unfold Cache.getCachedSummary, Cache.cacheSummary.
  cbn [Cache.local Cache.now]. rewrite lookup_insert_eq.
  cbn [Cache.timestamp_of Cache.summary_of].
  replace (Cache.now w - Cache.now w) with 0 by lia. reflexivity.
Qed.

(** X5.  A summary stored by [cacheSummary] is what [getCachedSummary]
    answers for the same URL for the next 24 hours, and [null] from then
    on. *)
Theorem cached_summary_round_trip (url summary : jsstr) (w : Cache.world) (dt : Z) :
  Cache.getCachedSummary url (Cache.elapse dt (Cache.cacheSummary url summary w))
  = if dt <? 24 * 60 * 60 * 1000 then Some summary else None.
Proof.
  unfold Cache.getCachedSummary, Cache.elapse, Cache.cacheSummary.
  cbn [Cache.local Cache.now]. rewrite lookup_insert_eq.
  cbn [Cache.timestamp_of Cache.summary_of].
  replace (Cache.now w + dt - Cache.now w) with dt by lia. reflexivity.
Qed.

(** X6.  A cleanup never changes what [getCachedSummary] answers: the
    entries it removes are entries that are no longer served. *)
Theorem cleanup_keeps_answers (url : jsstr) (w : Cache.world) :
  Cache.getCachedSummary url (Cache.cleanupOldCache w) = Cache.getCachedSummary url w.
Proof.
  unfold Cache.getCachedSummary. rewrite cleanup_lookup.
  change (Cache.now (Cache.cleanupOldCache w)) with (Cache.now w).
  destruct (Cache.local w !! Cache.cacheKey url) as [item|]; [|reflexivity].
  destruct (Cache.expired _ _ item) eqn:E; [|reflexivity].
  apply expired_spec in E as (_ & t & Ht & _ & Hlt). rewrite Ht.
  assert ((Cache.now w - t <? 24 * 60 * 60 * 1000) = false) as -> by (apply Z.ltb_ge; lia).
  reflexivity.
Qed.

Lemma world_eq (w1 w2 : Cache.world) :
  Cache.now w1 = Cache.now w2 -> Cache.local w1 = Cache.local w2 -> w1 = w2.
Proof. destruct w1, w2. simpl. now intros -> ->. Qed.

(** X7.  Running the cleanup twice in a row removes nothing more than
    running it once. *)
Theorem cleanup_idempotent (w : Cache.world) :
  Cache.cleanupOldCache (Cache.cleanupOldCache w) = Cache.cleanupOldCache w.
Proof.
  apply world_eq; [reflexivity|]. apply map_eq. intros key.
  rewrite (cleanup_lookup (Cache.cleanupOldCache w)), (cleanup_lookup w).
  change (Cache.now (Cache.cleanupOldCache w)) with (Cache.now w).
  destruct (Cache.local w !! key) as [item|]; [|reflexivity].
  destruct (Cache.expired _ key item) eqn:E; [reflexivity|]. now rewrite E.
Qed.

(** X8.  An entry stored by [cacheSummary] is removed by a cleanup that
    runs [dt] milliseconds later exactly when [dt] is more than 7 days
    and the entry was not stored at time 0 (a timestamp of 0 is falsy, so
    such an entry is never cleaned up); otherwise it is still there. *)
Theorem cleanup_removes_after_a_week (url summary : jsstr) (w : Cache.world) (dt : Z) :
  Cache.local (Cache.cleanupOldCache (Cache.elapse dt (Cache.cacheSummary url summary w)))
    !! Cache.cacheKey url
  = if negb (Cache.now w =? 0) && (7 * 24 * 60 * 60 * 1000 <? dt) then None
    else Some (Cache.CacheData summary (Cache.now w) url).
Proof.
  rewrite cleanup_lookup. unfold Cache.elapse, Cache.cacheSummary.
  cbn [Cache.local Cache.now]. rewrite lookup_insert_eq.
  unfold Cache.expired. rewrite cacheKey_prefixed. cbn [Cache.timestamp_of andb].
  destruct (Cache.now w =? 0); [reflexivity|]. cbn [negb andb].
  destruct (7 * 24 * 60 * 60 * 1000 <? dt) eqn:E.
  - apply Z.ltb_lt in E.
    assert ((Cache.now w <? Cache.now w + dt - 7 * 24 * 60 * 60 * 1000) = true) as ->
      by (apply Z.ltb_lt; lia).
    reflexivity.
  - apply Z.ltb_ge in E.
    assert ((Cache.now w <? Cache.now w + dt - 7 * 24 * 60 * 60 * 1000) = false) as ->
      by (apply Z.ltb_ge; lia).
    reflexivity.
Qed.

Lemma cleanups_keep_untimed dts : forall w key item,
  Cache.timestamp_of item = None ->
  Cache.local w !! key = Some item ->
  Cache.local (later_cleanups dts w) !! key = Some item.
Proof.
  induction dts as [|dt dts IH]; intros w key item Ht Hl; [exact Hl|].
  cbn [later_cleanups]. apply IH; [exact Ht|].
  rewrite cleanup_lookup. cbn [Cache.elapse Cache.local]. rewrite Hl.
  unfold Cache.expired. rewrite Ht. now rewrite andb_false_r.
Qed.

(** X9.  The analyses the popup stores carry no timestamp, so no cleanup
    ever removes them: after any number of cleanups, however much later,
    the popup opened on the same page is still served the stored
    analysis. *)
Theorem popup_entries_survive_cleanups (d : Document) (summary categories metadata : jsstr)
        (dts : list Z) (w : Cache.world) :
  Popup.canAnalyzePage (location_href d) && Popup.isTC (Popup.detectAndExtractTC d) = true ->
  Cache.popup_opened d (later_cleanups dts (Cache.popup_summarized d summary categories metadata w))
  = Some (Cache.Analysis summary categories metadata).
Proof.
  intros H. unfold Cache.popup_opened.
  rewrite H. apply cleanups_keep_untimed; [reflexivity|].
  unfold Cache.popup_summarized. rewrite H. cbn [Cache.local]. apply lookup_insert_eq.
Qed.

Lemma popup_entries_survive_cleanups_witness :
  Cache.popup_opened title_only_page
    (later_cleanups [two_days; 30 * two_days]
       (Cache.popup_summarized title_only_page (str "A short summary.") (str "{}") (str "{}")
          {| Cache.now := 1700000000000; Cache.local := ∅ |}))
  = Some (Cache.Analysis (str "A short summary.") (str "{}") (str "{}")).
Proof.
  apply (popup_entries_survive_cleanups title_only_page). vm_compute. reflexivity.
Defined.

(* ------------------------------------------------------------------ *)
(** ** Cache keys: 50 characters of base64 *)

Lemma btoa_app k : forall a b,
  length a = (3 * k)%nat -> Cache.btoa (a ++ b) = Cache.btoa a ++ Cache.btoa b.
Proof.
  induction k as [|k IH]; intros a b Hlen.
  - destruct a; [reflexivity|simpl in Hlen; lia].
  - destruct a as [|x [|y [|z a]]]; simpl in Hlen; try lia.
    change ((x :: y :: z :: a) ++ b) with (x :: y :: z :: (a ++ b)).
    cbn [Cache.btoa]. rewrite (IH a b) by lia. now rewrite <- !app_assoc.
Qed.

Lemma btoa_length k : forall a,
  length a = (3 * k)%nat -> length (Cache.btoa a) = (4 * k)%nat.
Proof.
  induction k as [|k IH]; intros a Hlen.
  - destruct a; [reflexivity|simpl in Hlen; lia].
  - destruct a as [|x [|y [|z a]]]; simpl in Hlen; try lia.
    cbn [Cache.btoa]. rewrite length_app, (IH a) by lia. simpl. lia.
Qed.

Lemma btoa_first_two b :
  take 2 (Cache.btoa b) = take 2 (Cache.btoa (take 2 b)).
Proof. destruct b as [|x [|y [|z b]]]; reflexivity. Qed.

(** The first 50 characters of the base64 text depend on the first 38
    code units only. *)
Lemma btoa_prefix s :
  take 50 (Cache.btoa s) = take 50 (Cache.btoa (take 38 s)).
Proof.
  destruct (le_lt_dec (length s) 38) as [Hle|Hgt]; [now rewrite (take_ge s 38)|].
  assert (length (take 36 s) = (3 * 12)%nat) as Ha by (rewrite length_take; lia).
  rewrite <- (take_drop 36 s) at 1.
  replace (take 38 s) with (take 36 s ++ take 2 (drop 36 s))
    by (now rewrite (take_take_drop s 36 2)).
  rewrite !(btoa_app 12) by exact Ha.
  pose proof (btoa_length 12 _ Ha) as Hl.
  change 50%nat with (48 + 2)%nat.
  rewrite !take_app_add' by (rewrite Hl; reflexivity).
  f_equal. apply btoa_first_two.
Qed.

Lemma encodeURIComponent_app a b :
  Cache.encodeURIComponent (a ++ b)
  = Cache.encodeURIComponent a ++ Cache.encodeURIComponent b.
Proof. unfold Cache.encodeURIComponent. apply flat_map_app. Qed.

(** X10.  The cache key keeps only 50 characters of the base64 text,
    that is 38 characters of the encoded URL.  Two URLs with a common
    beginning whose encoding has at least 38 characters therefore share
    one key, and the summary stored for one of them is what
    [getCachedSummary] answers for the other. *)
Theorem long_urls_share_a_cache_entry (p r1 r2 summary : jsstr) (w : Cache.world) :
  (38 <= length (Cache.encodeURIComponent p))%nat ->
  Cache.cacheKey (p ++ r1) = Cache.cacheKey (p ++ r2)
  /\ Cache.getCachedSummary (p ++ r2) (Cache.cacheSummary (p ++ r1) summary w)
     = Some summary.
Proof.
  intros Hp.
  assert (Cache.cacheKey (p ++ r1) = Cache.cacheKey (p ++ r2)) as Hk.
  { unfold Cache.cacheKey. f_equal.
    rewrite (btoa_prefix (Cache.encodeURIComponent (p ++ r1))),
            (btoa_prefix (Cache.encodeURIComponent (p ++ r2))).
    now rewrite !encodeURIComponent_app, !take_app_le by exact Hp. }
  split; [exact Hk|].
  unfold Cache.getCachedSummary. rewrite <- Hk.
  exact (cached_summary_round_trip_aux (p ++ r1) summary w).
Qed.

Lemma long_urls_share_a_cache_entry_witness :
  Cache.cacheKey (site_prefix ++ str "terms") = Cache.cacheKey (site_prefix ++ str "privacy")
  /\ Cache.getCachedSummary (site_prefix ++ str "privacy")
       (Cache.cacheSummary (site_prefix ++ str "terms") (str "Terms in short.")
          {| Cache.now := 1700000000000; Cache.local := ∅ |})
     = Some (str "Terms in short.").
Proof.
  apply (long_urls_share_a_cache_entry site_prefix).
  apply Nat.leb_le. vm_compute. reflexivity.
Defined.

(** X11.  The popup's key keeps 38 characters of the URL itself.  On two
    T&C pages whose URLs agree on their first 38 characters, the analysis
    stored from one is shown when the popup opens on the other. *)
Theorem popup_shows_analysis_of_other_page (d1 d2 : Document) (p r1 r2 : jsstr)
        (summary categories metadata : jsstr) (w : Cache.world) :
  location_href d1 = p ++ r1 ->
  location_href d2 = p ++ r2 ->
  (38 <= length p)%nat ->
  Popup.canAnalyzePage (location_href d1) && Popup.isTC (Popup.detectAndExtractTC d1) = true ->
  Popup.canAnalyzePage (location_href d2) && Popup.isTC (Popup.detectAndExtractTC d2) = true ->
  Cache.popup_opened d2 (Cache.popup_summarized d1 summary categories metadata w)
  = Some (Cache.Analysis summary categories metadata).
Proof.
  intros H1 H2 Hp Hd1 Hd2. unfold Cache.popup_opened, Cache.popup_summarized.
  rewrite Hd1, Hd2. cbn [Cache.local].
  assert (Cache.popup_cacheKey (location_href d2) = Cache.popup_cacheKey (location_href d1))
    as ->.
  { unfold Cache.popup_cacheKey. f_equal. rewrite H1, H2.
    rewrite (btoa_prefix (p ++ r1)), (btoa_prefix (p ++ r2)).
    now rewrite !take_app_le by exact Hp. }
  apply lookup_insert_eq.
Qed.

Lemma popup_shows_analysis_of_other_page_witness :
  Cache.popup_opened (site_page "privacy")
    (Cache.popup_summarized (site_page "terms") (str "Terms in short.") (str "{}") (str "{}")
       {| Cache.now := 1700000000000; Cache.local := ∅ |})
  = Some (Cache.Analysis (str "Terms in short.") (str "{}") (str "{}")).
Proof.
  apply (popup_shows_analysis_of_other_page (site_page "terms") (site_page "privacy")
           site_prefix (str "terms") (str "privacy")).
  - reflexivity.
  - reflexivity.
  - apply Nat.leb_le. vm_compute. reflexivity.
  - vm_compute. reflexivity.
  - vm_compute. reflexivity.
Defined.

(* ------------------------------------------------------------------ *)
(** ** [clearCache] (options.js) *)

Lemma clearCache_lookup (w : Cache.world) (key : jsstr) :
  Cache.local (fst (Options.clearCache true w)) !! key
  = if startsWith key (str "summary_") then None else Cache.local w !! key.
Proof.
  unfold Options.clearCache. cbn [negb].
  set (keys := filter _ _).
  assert (forall k, k ∈ keys <->
            startsWith k (str "summary_") = true /\ is_Some (Cache.local w !! k)) as Hkeys.
  { intros k. unfold keys. rewrite list_elem_of_filter, list_elem_of_fmap. split.
    - intros (Hp & [k' item] & -> & Hin). apply elem_of_map_to_list in Hin.
      split; [now apply Is_true_true in Hp|eauto].
    - intros (Hp & item & Hl). split; [now apply Is_true_true|].
      exists (k, item). split; [reflexivity|]. now apply elem_of_map_to_list. }
  destruct (0 <? length keys)%nat eqn:Hn; cbn [fst Cache.local].
  - destruct (startsWith key (str "summary_")) eqn:Hp.
    + destruct (Cache.local w !! key) as [item|] eqn:Hl.
      * apply lookup_foldr_delete, Hkeys. eauto.
      * destruct (decide (key ∈ keys)) as [Hin|Hin].
        -- now apply lookup_foldr_delete.
        -- now rewrite lookup_foldr_delete_not_elem_of.
    + rewrite lookup_foldr_delete_not_elem_of; [reflexivity|].
      rewrite Hkeys. intros [Hp' _]. congruence.
  - apply Nat.ltb_ge in Hn. destruct keys as [|k keys'] eqn:Ek; [|simpl in Hn; lia].
    destruct (startsWith key (str "summary_")) eqn:Hp; [|reflexivity].
    destruct (Cache.local w !! key) as [item|] eqn:Hl; [|reflexivity].
    assert (key ∈ @nil (list ascii)) as Hin by (apply Hkeys; eauto).
    now apply elem_of_nil in Hin.
Qed.

(** X12.  After a confirmed [clearCache] neither cache has anything
    left: [getCachedSummary] answers [null] for every URL and the popup
    finds no stored analysis on any page, because both kinds of key start
    with "summary_".  Entries under other keys stay, and without the
    confirmation nothing is touched. *)
Theorem clearCache_empties_both_caches (w : Cache.world) :
  (forall url, Cache.getCachedSummary url (fst (Options.clearCache true w)) = None)
  /\ (forall d, Cache.popup_opened d (fst (Options.clearCache true w)) = None)
  /\ (forall key, startsWith key (str "summary_") = false ->
        Cache.local (fst (Options.clearCache true w)) !! key = Cache.local w !! key)
  /\ Options.clearCache false w = (w, None).
Proof.
  split; [|split; [|split]].
  - intros url. unfold Cache.getCachedSummary.
    now rewrite clearCache_lookup, cacheKey_prefixed.
  - intros d. unfold Cache.popup_opened.
    rewrite clearCache_lookup, popup_cacheKey_prefixed. now destruct (_ && _).
  - intros key Hk. now rewrite clearCache_lookup, Hk.
  - reflexivity.
Qed.

Lemma size_foldr_delete (m : gmap (list ascii) Cache.entry) (keys : list (list ascii)) :
  NoDup keys -> (forall k, k ∈ keys -> is_Some (m !! k)) ->
  (size (foldr delete m keys) + length keys = size m)%nat.
Proof.
  induction keys as [|k keys IH]; intros Hnd Hin; simpl; [lia|].
  apply NoDup_cons in Hnd as [Hk Hnd].
  rewrite map_size_delete_Some.
  - assert (size (foldr delete m keys) <> 0)%nat as Hpos.
    { intros Hz. apply map_size_empty_inv in Hz.
      assert (is_Some (foldr delete m keys !! k)) as [x Hx].
      { rewrite lookup_foldr_delete_not_elem_of by exact Hk. apply Hin. left. }
      rewrite Hz, lookup_empty in Hx. discriminate Hx. }
    rewrite <- IH; [lia|exact Hnd|]. intros k' Hk'. apply Hin. now right.
  - rewrite lookup_foldr_delete_not_elem_of by exact Hk. apply Hin. left.
Qed.

(** X13.  The number [clearCache] reports in "Cleared n cached
    summaries" is the number of entries it has removed, and it is never 0:
    with nothing to clear the other message is shown and the storage is
    left as it is. *)
Theorem clearCache_reports_what_it_removed (w : Cache.world) :
  match snd (Options.clearCache true w) with
  | Some (Options.Cleared n) =>
      (0 < n)%nat
      /\ (size (Cache.local (fst (Options.clearCache true w))) + n
          = size (Cache.local w))%nat
  | Some Options.NothingToClear => fst (Options.clearCache true w) = w
  | None => False
  end.
Proof.
  unfold Options.clearCache. cbn [negb].
  set (keys := filter _ _).
  destruct (0 <? length keys)%nat eqn:Hn; cbn [fst snd Cache.local]; [|reflexivity].
  split; [now apply Nat.ltb_lt|].
  apply size_foldr_delete.
  - apply NoDup_filter, NoDup_fst_map_to_list.
  - intros k Hk. unfold keys in Hk.
    apply list_elem_of_filter in Hk as [_ Hk].
    apply list_elem_of_fmap in Hk as ([k' item] & -> & Hin).
    apply elem_of_map_to_list in Hin. eauto.
Qed.

(* ------------------------------------------------------------------ *)
(** ** [generateAnalysis] and the click on the button (popup.js) *)

Lemma or_empty_object_nonempty x : Backend.or_empty_object x <> [].
Proof. destruct x as [[|c t]|]; discriminate. Qed.

Lemma or_empty_object_field x : field_or_empty_object x (Backend.or_empty_object x).
Proof. destruct x as [[|c t]|]; reflexivity. Qed.

Lemma generateAnalysis_outcomes_aux (primary fallback : Backend.reply) :
  match fst (Backend.generateAnalysis primary fallback) with
  | inr analysis =>
      exists summary categories metadata,
        analysis = Cache.Analysis summary categories metadata
  | inl _ => True
  end.
Proof.
  unfold Backend.generateAnalysis.
  destruct (Backend.primary_attempt primary) as [e|a] eqn:Hp.
  - destruct (Backend.fallback_attempt fallback) as [a|] eqn:Hf; cbn [fst]; [|exact I].
    destruct fallback as [m'|[] status' [b'|m']]; try discriminate Hf.
    injection Hf as <-. eauto.
  - cbn [fst]. destruct primary as [m|[] status [b|m]]; try discriminate Hp.
    cbn [Backend.primary_attempt] in Hp.
    destruct (Backend.truthy (Backend.error b)); [discriminate Hp|].
    injection Hp as <-. eauto.
Qed.

(** X14.  [generateAnalysis] throws only when the request to
    [/summarize] fails (no answer, a status that is not ok, a body that
    is not JSON, or a body with an [error]) and the request to
    [/categories-only] does not answer ok with JSON; the error it throws
    is then the one of the first request, never one of the second.  The
    second endpoint is contacted only after the first has failed.  What
    it returns has the first endpoint's summary, categories and metadata,
    or the fixed sentence "Summary unavailable, ..." with the second
    endpoint's categories and metadata (accepted even when that body
    carries an [error]); a field that is absent is replaced by the empty
    object, so categories and metadata are never absent. *)
Theorem generateAnalysis_outcomes (primary fallback : Backend.reply) :
  match Backend.generateAnalysis primary fallback with
  | (inl thrown, requests) =>
      Backend.primary_attempt primary = inl thrown
      /\ (json_of primary = None
          \/ exists b, json_of primary = Some b /\ Backend.truthy (Backend.error b) = true)
      /\ json_of fallback = None
      /\ requests = [Backend.Summarize; Backend.CategoriesOnly]
  | (inr analysis, requests) =>
      exists summary categories metadata,
        analysis = Cache.Analysis summary categories metadata
        /\ categories <> [] /\ metadata <> []
        /\ ((exists b, json_of primary = Some b
               /\ Backend.truthy (Backend.error b) = false
               /\ summary = Backend.summary b
               /\ field_or_empty_object (Backend.categories b) categories
               /\ field_or_empty_object (Backend.metadata b) metadata
               /\ requests = [Backend.Summarize])
            \/ (exists b thrown, Backend.primary_attempt primary = inl thrown
                  /\ json_of fallback = Some b
                  /\ summary = fallback_summary
                  /\ field_or_empty_object (Backend.categories b) categories
                  /\ field_or_empty_object (Backend.metadata b) metadata
                  /\ requests = [Backend.Summarize; Backend.CategoriesOnly]))
  end.
Proof.
  unfold Backend.generateAnalysis.
  destruct primary as [m|[] status [b|m]]; cbn [Backend.primary_attempt json_of].
  all: try destruct (Backend.truthy (Backend.error b)) eqn:E.
  all: try (destruct fallback as [m'|[] status' [b'|m']];
            cbn [Backend.fallback_attempt json_of]).
  all: try (repeat split; eauto; fail).
  all: do 3 eexists; split; [reflexivity|].
  all: split; [apply or_empty_object_nonempty|].
  all: split; [apply or_empty_object_nonempty|].
  all: try (right; exists b'; eexists; cbn [Backend.primary_attempt];
            rewrite ?E; repeat split; try apply or_empty_object_field; fail).
  all: left; exists b; repeat split; try apply or_empty_object_field; exact E.
Qed.

(** X15.  A click on the button on a T&C page stores the analysis
    [generateAnalysis] returned, and that analysis is what the popup shows
    when it is opened on the page again, at any later time.  When
    [generateAnalysis] throws, the cache is left exactly as it was. *)
Theorem click_then_reopen (d : Document) (primary fallback : Backend.reply)
        (w : Cache.world) (dt : Z) :
  Popup.canAnalyzePage (location_href d) && Popup.isTC (Popup.detectAndExtractTC d) = true ->
  match fst (Backend.generateAnalysis primary fallback) with
  | inr analysis =>
      Cache.popup_opened d (Cache.elapse dt (Backend.summarize_click d primary fallback w))
      = Some analysis
  | inl _ => Backend.summarize_click d primary fallback w = w
  end.
Proof.
  intros H. unfold Backend.summarize_click. rewrite H.
  pose proof (generateAnalysis_outcomes_aux primary fallback) as Ha.
  destruct (fst (Backend.generateAnalysis primary fallback)) as [e|a]; [reflexivity|].
  destruct Ha as (s & c & m & ->).
  unfold Cache.popup_opened, Cache.popup_summarized. rewrite H.
  cbn [Cache.local Cache.elapse]. apply lookup_insert_eq.
Qed.

Lemma click_then_reopen_witness :
  Cache.popup_opened title_only_page
    (Cache.elapse two_days
       (Backend.summarize_click title_only_page
          (Backend.Unreachable (str "Failed to fetch")) (summary_reply "ignored")
          {| Cache.now := 1700000000000; Cache.local := ∅ |}))
  = Some (Cache.Analysis fallback_summary (str "{}") (str "{}")).
Proof.
  apply (click_then_reopen title_only_page (Backend.Unreachable (str "Failed to fetch"))
           (summary_reply "ignored")).
  vm_compute. reflexivity.
Defined.

(* ------------------------------------------------------------------ *)
(** ** More on [detectAndExtractTC] (popup.js) *)

(** X16.  One indicator phrase in the title is enough: whatever the URL,
    the headings and the content are, a page whose lower-cased title
    contains an indicator gets at least 25 title points and is a match. *)
Theorem title_indicator_is_enough (indicator : jsstr) (d : Document) :
  In indicator Popup.tcIndicators ->
  includes (toLowerCase (document_title d)) indicator = true ->
  25 <= Popup.titleScore d
  /\ Popup.isTC (Popup.detectAndExtractTC d) = true.
Proof.
  intros Hin Ht.
  assert (25 <= Popup.titleScore d) as Hscore.
  { unfold Popup.titleScore.
    assert (forall (a : Z) (x : jsstr),
               a <= if includes (toLowerCase (document_title d)) x then a + 25 else a)
      as Hmono by (intros a x; destruct (includes _ x); lia).
    apply (fold_left_ge_member _ Hmono _ 0 indicator 25 Hin).
    intros a. rewrite Ht. lia. }
  split; [exact Hscore|].
  cbn [Popup.isTC Popup.detectAndExtractTC]. apply Z.leb_le.
  pose proof (urlScore_nonneg d). pose proof (headingScore_nonneg d).
  pose proof (contentScore_nonneg d). unfold Popup.totalScore. lia.
Qed.

Lemma title_indicator_is_enough_witness :
  25 <= Popup.titleScore title_only_page
  /\ Popup.isTC (Popup.detectAndExtractTC title_only_page) = true.
Proof.
  apply (title_indicator_is_enough (str "terms of service") title_only_page).
  - left. reflexivity.
  - reflexivity.
Defined.

(** X17.  In [detectAndExtractTC] the first selector of the list whose
    element has more than 500 characters of trimmed text gives the
    content: [mainContent] is the cleaned text of that element, and the
    returned text its first 10,000 characters. *)
Theorem popup_first_container_wins (d : Document) before sel after e :
  Popup.contentSelectors = before ++ sel :: after ->
  (forall s e', In s before -> querySelector d s = Some e' -> Popup.qualifies e' = false) ->
  querySelector d sel = Some e ->
  Popup.qualifies e = true ->
  Popup.mainContent d = normalize (element_text e)
  /\ Popup.text (Popup.detectAndExtractTC d) = substring0 10000 (normalize (element_text e)).
Proof.
  intros Hsel Hb Hq He.
  assert (Popup.mainContent d = normalize (element_text e)) as Hm.
  { unfold Popup.mainContent, Popup.rawText, Popup.contentElement. rewrite Hsel.
    now rewrite (select_loop_first_qualifying _ _ _ _ _ None e Hb Hq He). }
  split; [exact Hm|]. cbn [Popup.text Popup.detectAndExtractTC]. now rewrite Hm.
Qed.

Lemma popup_first_container_wins_witness :
  Popup.mainContent article_page = normalize (element_text long_body)
  /\ Popup.text (Popup.detectAndExtractTC article_page)
     = substring0 10000 (normalize (element_text long_body)).
Proof.
  apply (popup_first_container_wins article_page
           (take 8 Popup.contentSelectors) (ByTag "article"%string)
           (drop 9 Popup.contentSelectors)).
  - reflexivity.
  - intros s e' Hin Hq. unfold Popup.contentSelectors in Hin. simpl in Hin.
    repeat destruct Hin as [<-|Hin]; try discriminate Hq; try destruct Hin.
    injection Hq as <-. vm_compute. reflexivity.
  - reflexivity.
  - vm_compute. reflexivity.
Defined.

(** X18.  When no selector of [detectAndExtractTC] finds an element
    with more than 500 characters of trimmed text, the content is the
    text of the element the last selector, [.legal], finds, however
    short; the body is used only when there is no such element. *)
Theorem popup_without_container (d : Document) :
  (forall s e, In s Popup.contentSelectors -> querySelector d s = Some e ->
               Popup.qualifies e = false) ->
  Popup.mainContent d =
    normalize (element_text (match querySelector d (ByClass "legal") with
                             | Some e => e
                             | None => body d
                             end)).
Proof.
  intros H. unfold Popup.mainContent, Popup.rawText, Popup.contentElement.
  change Popup.contentSelectors
    with (take 13 Popup.contentSelectors ++ [ByClass "legal"%string]) in *.
  now rewrite (select_loop_none_qualifying _ _ _ _ None H).
Qed.

Lemma popup_without_container_witness :
  Popup.mainContent banner_page = normalize (element_text short_banner).
Proof.
  apply (popup_without_container banner_page).
  intros s e Hin Hq. unfold Popup.contentSelectors in Hin. simpl in Hin.
  repeat destruct Hin as [<-|Hin]; try discriminate Hq; try destruct Hin.
  injection Hq as <-. vm_compute. reflexivity.
Defined.

(** X19.  The same in [extractTCContent] of content.js, whose last
    selector is [#main-content] and whose test is on the untrimmed text:
    when no selector finds an element of more than 500 characters, the
    text that is cleaned is that of the [#main-content] element if there
    is one, and of the body otherwise. *)
Theorem content_script_without_container (d : Document) :
  (forall s e, In s Content.contentSelectors -> querySelector d s = Some e ->
               Content.qualifies e = false) ->
  cleaned d =
    normalize (element_text (match querySelector d (ById "main-content") with
                             | Some e => e
                             | None => body d
                             end)).
Proof.
  intros H. unfold cleaned, Content.contentContainer.
  change Content.contentSelectors
    with (take 11 Content.contentSelectors ++ [ById "main-content"%string]) in *.
  now rewrite (select_loop_none_qualifying _ _ _ _ None H).
Qed.

Lemma content_script_without_container_witness :
  cleaned banner_page = normalize (element_text short_banner).
Proof.
  apply (content_script_without_container banner_page).
  intros s e Hin Hq. unfold Content.contentSelectors in Hin. simpl in Hin.
  repeat destruct Hin as [<-|Hin]; try discriminate Hq; try destruct Hin.
  injection Hq as <-. vm_compute. reflexivity.
Defined.

(* ------------------------------------------------------------------ *)
(** ** [canAnalyzePage] (popup.js) *)

Lemma includes_startsWith s p : startsWith s p = true -> includes s p = true.
Proof. destruct s; simpl; intros ->; reflexivity. Qed.

Lemma includes_at p x q : includes (p ++ x ++ q) x = true.
Proof.
  induction p as [|c p IH].
  - change ([] ++ x ++ q) with (x ++ q). apply includes_startsWith, startsWith_app.
  - simpl. rewrite IH. apply orb_true_r.
Qed.

(** X20.  The test on the restricted domains is a substring test on the
    whole URL: a URL that mentions [chrome.google.com/webstore],
    [addons.mozilla.org] or [microsoftedge.microsoft.com] anywhere, for
    instance in its query string, cannot be analyzed. *)
Theorem mention_of_a_store_blocks_analysis (before domain after : jsstr) :
  In domain Popup.restrictedDomains ->
  Popup.canAnalyzePage (before ++ domain ++ after) = false.
Proof.
  intros Hin. unfold Popup.canAnalyzePage. apply andb_false_iff. right.
  apply negb_false_iff, existsb_exists. exists domain. split; [exact Hin|].
  apply includes_at.
Qed.

Lemma mention_of_a_store_blocks_analysis_witness :
  Popup.canAnalyzePage
    (str "https://example.com/terms?from=" ++ str "addons.mozilla.org" ++ str "&lang=en")
  = false.
Proof.
  apply (mention_of_a_store_blocks_analysis (str "https://example.com/terms?from=")
           (str "addons.mozilla.org") (str "&lang=en")).
  right. left. reflexivity.
Defined.

(** X21.  No restricted protocol starts with "http": for a URL that
    starts with "http" the answer of [canAnalyzePage] depends on the
    restricted domains alone. *)
Theorem http_pages_depend_on_domains_only (url : jsstr) :
  startsWith url (str "http") = true ->
  Popup.canAnalyzePage url = negb (existsb (includes url) Popup.restrictedDomains).
Proof.
  intros H. unfold Popup.canAnalyzePage.
  assert (existsb (startsWith url) Popup.restrictedProtocols = false) as ->; [|reflexivity].
  destruct url as [|c url]; [discriminate H|].
  simpl in H. apply andb_true_iff in H as [Hc _]. apply Ascii.eqb_eq in Hc. subst c.
  reflexivity.
Qed.

Lemma http_pages_depend_on_domains_only_witness :
  Popup.canAnalyzePage (str "https://example.com/terms") = true.
Proof.
  apply (http_pages_depend_on_domains_only (str "https://example.com/terms")).
  reflexivity.
Defined.

(* ------------------------------------------------------------------ *)
(** ** [analyzeTCContent] (content.js) *)

Lemma fold_left_ge_in {A} (f : Z -> A -> Z) (l : list A) :
  (forall x, In x l -> forall acc, acc <= f acc x) ->
  forall acc, acc <= fold_left f l acc.
Proof.
  induction l as [|x l IH]; intros H acc; simpl; [lia|].
  pose proof (H x (or_introl eq_refl) acc).
  pose proof (IH (fun y Hy => H y (or_intror Hy)) (f acc x)). lia.
Qed.

Lemma content_score_nonneg content : 0 <= Content.score content.
Proof.
  unfold Content.score. apply fold_left_ge_in.
  intros ind Hin acc. apply add_matches_ge.
  unfold Content.indicators in Hin. simpl in Hin.
  repeat (destruct Hin as [<-|Hin]; [cbn [snd]; lia|]). destruct Hin.
Qed.

Lemma fold_left_no_match (l : list (RegExp.t * Z)) content :
  (forall ind, In ind l -> js_match (fst ind) content = None) ->
  forall acc,
    fold_left (fun score indicator =>
                 add_matches (fst indicator) (snd indicator) content score) l acc = acc.
Proof.
  induction l as [|ind l IH]; intros H acc; simpl; [reflexivity|].
  unfold add_matches at 2. rewrite (H ind (or_introl eq_refl)).
  apply IH. intros ind' Hin. apply H. now right.
Qed.

Lemma below_59_is_below_30 score :
  0 <= score < 59 -> Content.confidence_of score < 30.
Proof.
  intros H.
  assert (forallb (fun n => Content.confidence_of (Z.of_nat n) <? 30) (seq 0 59) = true)
    as Hall by (vm_compute; reflexivity).
  rewrite forallb_forall in Hall.
  specialize (Hall (Z.to_nat score)). rewrite Z2Nat.id in Hall by lia.
  apply Z.ltb_lt, Hall, in_seq. lia.
Qed.

(** X22.  [analyzeTCContent] calls a page a T&C page only when the
    weighted count of its pattern matches is at least 59 (with the
    division by 200 and the rounding, that is where the confidence
    reaches 30).  It reports at most 14 key indicators, and when none of
    the patterns matches the confidence is 0 and the page is not a T&C
    page. *)
Theorem content_script_flags_from_59 (d : Document) :
  0 <= Content.score (Content.extractTCContent d)
  /\ (Content.isTC (Content.analyzeTCContent d) = true ->
      59 <= Content.score (Content.extractTCContent d))
  /\ (Content.keyIndicators (Content.analyzeTCContent d) <= 14)%nat
  /\ (Content.keyIndicators (Content.analyzeTCContent d) = 0%nat ->
      Content.confidence (Content.analyzeTCContent d) = 0
      /\ Content.isTC (Content.analyzeTCContent d) = false).
Proof.
  pose proof (content_score_nonneg (Content.extractTCContent d)) as H0.
  cbn [Content.isTC Content.confidence Content.keyIndicators Content.analyzeTCContent].
  split; [exact H0|]. split; [|split].
  - intros H. apply Z.leb_le in H.
    destruct (Z_lt_le_dec (Content.score (Content.extractTCContent d)) 59) as [Hlt|Hge];
      [|exact Hge].
    pose proof (below_59_is_below_30 _ (conj H0 Hlt)). lia.
  - etransitivity; [apply length_filter|]. reflexivity.
  - intros Hk. apply nil_length_inv in Hk.
    assert (Content.score (Content.extractTCContent d) = 0) as ->.
    { unfold Content.score. apply fold_left_no_match. intros ind Hin.
      destruct (js_match (fst ind) (Content.extractTCContent d)) eqn:E; [|reflexivity].
      exfalso. apply (filter_nil_not_elem_of _ _ ind Hk); [now rewrite E|].
      now apply list_elem_of_In. }
    split; reflexivity.
Qed.

Lemma split_from_nonempty re n s : forall skip acc,
  (1 <= length (split_from re n s skip acc))%nat.
Proof.
  induction s as [|c s IH]; intros skip acc; simpl; [lia|].
  destruct skip; [|apply IH].
  destruct (match_at re n (c :: s)) as [[[|l] cap]|]; try destruct acc; simpl;
    try apply IH; lia.
Qed.

(** X23.  The [wordCount] of [analyzeTCContent] is never 0: splitting
    at whitespace always yields at least one piece, so a page without any
    text is reported to have one word. *)
Theorem wordCount_is_never_zero (d : Document) :
  (1 <= Content.wordCount (Content.analyzeTCContent d))%nat
  /\ (Content.extractTCContent d = [] ->
      Content.wordCount (Content.analyzeTCContent d) = 1%nat).
Proof.
  cbn [Content.wordCount Content.analyzeTCContent]. split.
  - unfold js_split. destruct (Content.extractTCContent d); [simpl; lia|].
    apply split_from_nonempty.
  - intros ->. reflexivity.
Qed.

(* ------------------------------------------------------------------ *)
(** ** [detectTCPage] (content.js) and [checkIfTCPage] (background.js) *)

Lemma flag_if_any_orb {A} (p : A -> bool) xs flag :
  Detect.flag_if_any p xs flag = existsb p xs || flag.
Proof. unfold Detect.flag_if_any. now destruct (existsb p xs). Qed.

Lemma heading_loop_orb hs : forall flag,
  Detect.heading_loop hs flag = flag || Detect.heading_loop hs false.
Proof.
  induction hs as [|h hs IH]; intros flag; simpl; [now rewrite orb_false_r|].
  rewrite !flag_if_any_orb, orb_false_r.
  destruct (existsb _ Detect.tcPatterns); simpl; [now rewrite orb_true_r|].
  destruct flag; [reflexivity|]. reflexivity.
Qed.

(** The flag after a run, in one formula. *)
Lemma detect_flag_formula d hs st :
  Detect.isLikelyTC (Detect.detectTCPage d hs st)
  = existsb (includes (toLowerCase (location_href d))) Detect.urlIndicators
    || existsb (fun pattern => js_test pattern (toLowerCase (document_title d)))
               Detect.tcPatterns
    || Detect.heading_loop hs false
    || Detect.isLikelyTC st.
Proof.
  unfold Detect.detectTCPage.
  set (F := Detect.heading_loop hs _).
  assert (F = existsb (includes (toLowerCase (location_href d))) Detect.urlIndicators
              || existsb (fun pattern => js_test pattern (toLowerCase (document_title d)))
                         Detect.tcPatterns
              || Detect.heading_loop hs false
              || Detect.isLikelyTC st) as HF.
  { unfold F. rewrite heading_loop_orb, !flag_if_any_orb.
    destruct (existsb (includes _) _), (existsb _ Detect.tcPatterns),
      (Detect.heading_loop hs false), (Detect.isLikelyTC st); reflexivity. }
  rewrite <- HF. unfold Detect.addTCIndicator. cbn [Detect.indicators].
  destruct F; [destruct (0 <? Detect.indicators st)%nat|]; reflexivity.
Qed.

Lemma detect_flag d hs st :
  Detect.isLikelyTC (Detect.detectTCPage d hs st)
  = Detect.isLikelyTC st || Detect.isLikelyTC (Detect.detectTCPage d hs Detect.initial).
Proof.
  rewrite !detect_flag_formula. cbn [Detect.isLikelyTC Detect.initial].
  destruct (existsb (includes _) _), (existsb _ Detect.tcPatterns),
    (Detect.heading_loop hs false), (Detect.isLikelyTC st); reflexivity.
Qed.

Lemma detect_indicators d hs st :
  Detect.indicators st = (if Detect.isLikelyTC st then 1 else 0)%nat ->
  Detect.indicators (Detect.detectTCPage d hs st)
  = (if Detect.isLikelyTC (Detect.detectTCPage d hs st) then 1 else 0)%nat.
Proof.
  intros Hinv. pose proof (detect_flag_formula d hs st) as HF. revert HF.
  unfold Detect.detectTCPage.
  set (F := Detect.heading_loop hs _). unfold Detect.addTCIndicator.
  cbn [Detect.indicators Detect.isLikelyTC]. rewrite Hinv.
  destruct F.
  - destruct (Detect.isLikelyTC st); intros _; reflexivity.
  - cbn [Detect.isLikelyTC Detect.indicators]. intros HF.
    destruct (Detect.isLikelyTC st); [|reflexivity].
    rewrite orb_true_r in HF. discriminate HF.
Qed.

(** X24.  The flag of the content script is never taken back: over any
    sequence of runs of [detectTCPage] (the first on load, the others
    after changes to the page) the flag is up at the end exactly when at
    least one of the runs saw a T&C page, whatever the page looks like at
    the end.  And however many runs there are, the page holds one
    indicator element when the flag is up and none otherwise. *)
Theorem detection_is_sticky_and_marks_once (pages : list (Document * list Element)) :
  let st := Detect.runs pages Detect.initial in
  Detect.isLikelyTC st
  = existsb (fun page =>
               Detect.isLikelyTC (Detect.detectTCPage (fst page) (snd page) Detect.initial))
            pages
  /\ Detect.indicators st = (if Detect.isLikelyTC st then 1 else 0)%nat.
Proof.
  cbv zeta. unfold Detect.runs.
  assert (forall st,
    Detect.indicators st = (if Detect.isLikelyTC st then 1 else 0)%nat ->
    Detect.isLikelyTC
      (fold_left (fun st page => Detect.detectTCPage (fst page) (snd page) st) pages st)
    = Detect.isLikelyTC st
      || existsb (fun page =>
                    Detect.isLikelyTC
                      (Detect.detectTCPage (fst page) (snd page) Detect.initial)) pages
    /\ Detect.indicators
         (fold_left (fun st page => Detect.detectTCPage (fst page) (snd page) st) pages st)
       = (if Detect.isLikelyTC
               (fold_left (fun st page => Detect.detectTCPage (fst page) (snd page) st)
                          pages st)
          then 1 else 0)%nat) as H.
  { induction pages as [|[d hs] pages IH]; intros st Hinv; simpl.
    - now rewrite orb_false_r.
    - destruct (IH _ (detect_indicators d hs st Hinv)) as [Hf Hi].
      split; [|exact Hi]. now rewrite Hf, detect_flag, orb_assoc. }
  exact (H Detect.initial eq_refl).
Qed.

(** X25.  The background script and the content script look for the
    same six words in the lower-cased URL: whenever [checkIfTCPage] sets
    the badge "T&C" for a tab, [detectTCPage] on that page raises its
    flag and the page gets its indicator. *)
Theorem badge_implies_indicator (d : Document) (hs : list Element) (st : Detect.state) :
  Tabs.checkIfTCPage (location_href d) = Some (str "T&C") ->
  Detect.isLikelyTC (Detect.detectTCPage d hs st) = true
  /\ (1 <= Detect.indicators (Detect.detectTCPage d hs st))%nat.
Proof.
  intros H. unfold Tabs.checkIfTCPage in H.
  destruct (location_href d) as [|c u] eqn:Hu; [discriminate H|].
  destruct (Tabs.isTCUrl (c :: u)) eqn:Hk; [|discriminate H].
  unfold Tabs.isTCUrl in Hk. change Tabs.tcKeywords with Detect.urlIndicators in Hk.
  unfold Detect.detectTCPage, Detect.addTCIndicator.
  cbn [Detect.isLikelyTC Detect.indicators]. rewrite Hu.
  rewrite !flag_if_any_orb, Hk. cbn [orb]. rewrite orb_true_r.
  rewrite (heading_loop_orb hs true). cbn [orb Detect.isLikelyTC Detect.indicators].
  destruct (0 <? Detect.indicators st)%nat eqn:E; cbn [Detect.isLikelyTC Detect.indicators].
  - apply Nat.ltb_lt in E. split; [reflexivity|lia].
  - split; [reflexivity|lia].
Qed.

Lemma badge_implies_indicator_witness :
  Detect.isLikelyTC (Detect.detectTCPage legal_page [] Detect.initial) = true
  /\ (1 <= Detect.indicators (Detect.detectTCPage legal_page [] Detect.initial))%nat.
Proof.
  apply (badge_implies_indicator legal_page [] Detect.initial). reflexivity.
Defined.

Example detect_ex :
  Detect.detectTCPage plain_page (headings plain_page) Detect.initial = Detect.initial
  /\ Detect.runs [ (heading_page, headings heading_page); (plain_page, headings plain_page) ]
                 Detect.initial
     = {| Detect.isLikelyTC := true; Detect.indicators := 1 |}.
Proof. split; vm_compute; reflexivity. Qed.

(* ------------------------------------------------------------------ *)
(** ** What cleaning does to a text *)

Lemma tokens_cons c s :
  tokens (c :: s) =
  if Char.is_space c then tokens s
  else if headed s && nonempty s then
         match tokens s with
         | w :: ws => (c :: w) :: ws
         | [] => [[c]]
         end
       else [c] :: tokens s.
Proof. reflexivity. Qed.

Lemma tokens_head_cons c s :
  Char.is_space c = false -> tokens (c :: s) <> [].
Proof.
  intros Hc. simpl. rewrite Hc.
  destruct (headed s && nonempty s); [destruct (tokens s)|]; discriminate.
Qed.

Lemma collapse_head_kind s :
  headed (collapse [" "%char] false s) && nonempty (collapse [" "%char] false s)
  = headed s && nonempty s.
Proof.
  destruct s as [|c s]; [reflexivity|]. simpl.
  destruct (Char.is_space c) eqn:E; simpl; [reflexivity|]. now rewrite E.
Qed.

Lemma collapse_tokens s : forall b, tokens (collapse [" "%char] b s) = tokens s.
Proof.
  induction s as [|c s IH]; intros b; [reflexivity|].
  cbn [collapse tokens]. destruct (Char.is_space c) eqn:E.
  - destruct b; [apply IH|]. cbn [app tokens].
    change (Char.is_space " ") with true. cbv iota. apply IH.
  - cbn [tokens]. rewrite E, collapse_head_kind, (IH false). reflexivity.
Qed.

Lemma trimStart_tokens s : tokens (trimStart s) = tokens s.
Proof.
  induction s as [|c s IH]; [reflexivity|]. simpl.
  destruct (Char.is_space c) eqn:E; [exact IH|]. simpl. now rewrite E.
Qed.

Lemma trimEnd_nil s : trimEnd s = [] -> tokens s = [] /\ headed s && nonempty s = false.
Proof.
  induction s as [|c s IH]; [auto|]. simpl.
  destruct (trimEnd s) eqn:E; [|discriminate].
  destruct (Char.is_space c) eqn:Ec; [|discriminate].
  intros _. split; [now apply IH|reflexivity].
Qed.

Lemma trimEnd_tokens s : tokens (trimEnd s) = tokens s.
Proof.
  induction s as [|c s IH]; [reflexivity|].
  cbn [trimEnd]. destruct (trimEnd s) as [|a t] eqn:E.
  - destruct (trimEnd_nil s E) as [Ht Hh].
    cbn [tokens]. rewrite Ht, Hh.
    destruct (Char.is_space c) eqn:Ec; [reflexivity|].
    cbn [tokens]. now rewrite Ec.
  - destruct (trimEnd_head _ _ _ E) as [s' ->].
    rewrite !(tokens_cons c), IH. reflexivity.
Qed.

Lemma normalize_tokens s : tokens (normalize s) = tokens s.
Proof.
  now rewrite normalize_collapse, trimEnd_tokens, trimStart_tokens, collapse_tokens.
Qed.

Lemma join_cons_head c w ws :
  join [" "%char] ((c :: w) :: ws) = c :: join [" "%char] (w :: ws).
Proof. destruct ws; reflexivity. Qed.

(** A text in which every space is single and followed by a word is its
    words joined by spaces, after its leading space if it has one. *)
Lemma join_tokens_spaced s :
  spaced s = true ->
  join [" "%char] (tokens s) = if headed s then s else tail s.
Proof.
  induction s as [|c s IH]; intros H; [reflexivity|].
  simpl in H. apply andb_true_iff in H as [Hc Hs]. specialize (IH Hs).
  cbn [tokens headed tail]. destruct (Char.is_space c) eqn:Ec; simpl in Hc.
  - apply andb_true_iff in Hc as [Hc _]. apply andb_true_iff in Hc as [_ Hh].
    cbn [negb]. now rewrite IH, Hh.
  - cbn [negb]. destruct (headed s && nonempty s) eqn:Hk.
    + apply andb_true_iff in Hk as [Hh Hn]. rewrite Hh in IH.
      destruct s as [|a s']; [discriminate Hn|].
      simpl in Hh. apply negb_true_iff in Hh.
      destruct (tokens (a :: s')) as [|w ws] eqn:Et;
        [now apply tokens_head_cons in Et|].
      rewrite join_cons_head. now rewrite IH.
    + destruct s as [|a s']; [reflexivity|].
      simpl in Hk. rewrite andb_true_r in Hk. apply negb_false_iff in Hk.
      cbn [headed] in IH. rewrite Hk in IH. cbn [negb tail] in IH.
      assert (Ha : a = " "%char).
      { cbn [spaced] in Hs. apply andb_true_iff in Hs as [Ha _].
        rewrite Hk in Ha. simpl in Ha.
        apply andb_true_iff in Ha as [Ha _]. apply andb_true_iff in Ha as [Ha _].
        now apply Ascii.eqb_eq in Ha. }
      subst a.
      destruct (tokens (" "%char :: s')) as [|w ws] eqn:Et.
      * simpl in IH. cbn [spaced] in Hs. apply andb_true_iff in Hs as [Ha _].
        simpl in Ha. apply andb_true_iff in Ha as [_ Hn].
        destruct s'; [discriminate Hn|discriminate IH].
      * change (join [" "%char] ([c] :: w :: ws))
          with (c :: " "%char :: join [" "%char] (w :: ws)).
        now rewrite IH.
Qed.

Lemma collapse_length s : forall b, (length (collapse [" "%char] b s) <= length s)%nat.
Proof.
  induction s as [|c s IH]; intros b; simpl; [lia|].
  destruct (Char.is_space c); [destruct b|]; simpl;
    [specialize (IH true)|specialize (IH true)|specialize (IH false)]; lia.
Qed.

Lemma trimStart_length s : (length (trimStart s) <= length s)%nat.
Proof.
  induction s as [|c s IH]; simpl; [lia|]. destruct (Char.is_space c); simpl; lia.
Qed.

Lemma trimEnd_length s : (length (trimEnd s) <= length s)%nat.
Proof.
  induction s as [|c s IH]; simpl; [lia|].
  destruct (trimEnd s); [destruct (Char.is_space c)|]; simpl in *; lia.
Qed.

(** X26.  Cleaning a text ([replace(/\s+/g, ' ').trim()]) gives exactly
    the whitespace-delimited words of the text joined by single spaces:
    it keeps every word, in order, drops all other whitespace, and never
    makes the text longer. *)
Theorem cleaning_joins_the_words (s : jsstr) :
  normalize s = join (str " ") (tokens s)
  /\ tokens (normalize s) = tokens s
  /\ (length (normalize s) <= length s)%nat.
Proof.
  split; [|split].
  - pose proof (normalize_normal s) as H. unfold normal in H.
    apply andb_true_iff in H as [Hh Hs].
    rewrite <- (normalize_tokens s). change (str " ") with [" "%char].
    now rewrite (join_tokens_spaced _ Hs), Hh.
  - apply normalize_tokens.
  - rewrite normalize_collapse.
    pose proof (trimEnd_length (trimStart (collapse [" "%char] false s))).
    pose proof (trimStart_length (collapse [" "%char] false s)).
    pose proof (collapse_length s false). lia.
Qed.

(** A page that is flagged after a run holds an indicator. *)
Lemma detect_indicators_marked d hs st :
  ((if Detect.isLikelyTC (Detect.detectTCPage d hs st) then 1 else 0)
   <= Detect.indicators (Detect.detectTCPage d hs st))%nat.
Proof.
  pose proof (detect_flag_formula d hs st) as HF. revert HF.
  unfold Detect.detectTCPage.
  set (F := Detect.heading_loop hs _). unfold Detect.addTCIndicator.
  cbn [Detect.indicators Detect.isLikelyTC].
  destruct F; cbn [Detect.isLikelyTC Detect.indicators]; intros _.
  - destruct (0 <? Detect.indicators st)%nat eqn:E;
      cbn [Detect.isLikelyTC Detect.indicators]; [apply Nat.ltb_lt in E|]; lia.
  - lia.
Qed.

(* ------------------------------------------------------------------ *)
(** ** The title patterns of content.js against the phrases of popup.js *)

Lemma startsWith_app_inv t w r :
  startsWith t (w ++ r) = true ->
  startsWith t w = true /\ startsWith (drop (length w) t) r = true.
Proof.
  revert t; induction w as [|p w IH]; intros t H.
  - split; [now destruct t|exact H].
  - destruct t as [|c t]; [discriminate H|].
    simpl in H. apply andb_true_iff in H as [Hc H]. destruct (IH t H) as [H1 H2].
    split; [simpl; now rewrite Hc, H1|exact H2].
Qed.

Lemma startsWith_lit_prefix ic w : forall t,
  startsWith t w = true -> lit_prefix ic w t = true.
Proof.
  induction w as [|p w IH]; intros [|c t] H; try reflexivity; try discriminate H.
  simpl in H. apply andb_true_iff in H as [Hc H]. apply Ascii.eqb_eq in Hc. subst c.
  cbn [lit_prefix cmatch]. rewrite (IH t H), andb_true_r.
  destruct ic; apply Ascii.eqb_refl.
Qed.

Lemma greedy_star_stops {R} ic cc (k : jsstr -> option R) c s :
  cmatch ic cc c = false -> greedy_star ic cc (c :: s) k = k (c :: s).
Proof. intros H. simpl. now rewrite H. Qed.

Lemma join_head_word w ws :
  is_word w = true ->
  exists c r, join [" "%char] (w :: ws) = c :: r /\ Char.is_space c = false.
Proof.
  unfold is_word. intros H. apply andb_true_iff in H as [Hn Hs].
  destruct w as [|c w]; [discriminate Hn|]. simpl in Hs.
  apply andb_true_iff in Hs as [Hc _]. apply negb_true_iff in Hc.
  destruct ws; simpl; eauto.
Qed.

(** The pattern of a phrase matches where the phrase stands, its words
    one space apart. *)
Lemma phrase_matches {R} ic n ws :
  forallb is_word ws = true ->
  forall t cap (k : jsstr -> option jsstr -> option R),
    startsWith t (join [" "%char] ws) = true ->
    rmatch ic n (Detect.phrase ws) t cap k
    = k (drop (length (join [" "%char] ws)) t) cap.
Proof.
  induction ws as [|w ws IH]; intros Hw t cap k H; [reflexivity|].
  simpl in Hw. apply andb_true_iff in Hw as [Hw Hws].
  destruct ws as [|w2 ws].
  - cbn [Detect.phrase join]. rewrite rmatch_lit.
    now rewrite (startsWith_lit_prefix ic w t H).
  - change (Detect.phrase (w :: w2 :: ws))
      with (Seq (lit w) (Seq (Plus CSpace) (Detect.phrase (w2 :: ws)))).
    change (join [" "%char] (w :: w2 :: ws))
      with (w ++ [" "%char] ++ join [" "%char] (w2 :: ws)) in *.
    apply startsWith_app_inv in H as [H1 H2].
    cbn [rmatch]. rewrite rmatch_lit, (startsWith_lit_prefix ic w t H1).
    destruct (drop (length w) t) as [|c t1] eqn:E; [discriminate H2|].
    cbn [app startsWith] in H2. apply andb_true_iff in H2 as [Hc H2].
    apply Ascii.eqb_eq in Hc. subst c.
    cbn [rmatch cmatch]. change (Char.is_space " ") with true. cbv iota.
    simpl in Hws. apply andb_true_iff in Hws as [Hw2 Hws].
    destruct (join_head_word w2 ws Hw2) as (c & r & Hj & Hc).
    destruct t1 as [|c1 t2]; [rewrite Hj in H2; discriminate H2|].
    assert (c1 = c) as ->.
    { rewrite Hj in H2. simpl in H2. apply andb_true_iff in H2 as [H2 _].
      now apply Ascii.eqb_eq in H2. }
    rewrite greedy_star_stops by exact Hc.
    rewrite (IH (proj2 (andb_true_iff _ _) (conj Hw2 Hws)) _ _ _ H2).
    f_equal. rewrite !length_app. cbn [length].
    rewrite <- drop_drop, E. cbn [drop]. rewrite Nat.add_1_l. reflexivity.
Qed.

Lemma test_where_it_stands re n p s :
  (forall t, startsWith t p = true -> match_at re n t <> None) ->
  includes s p = true -> test_from re n s = true.
Proof.
  intros Hm. induction s as [|c s IH]; intros H.
  - cbn [includes] in H. rewrite orb_false_r in H. cbn [test_from].
    destruct (match_at re n []) eqn:E; [reflexivity|]. now apply Hm in E.
  - cbn [includes] in H. cbn [test_from].
    destruct (match_at re n (c :: s)) eqn:E; [reflexivity|].
    apply orb_true_iff in H as [H|H]; [now apply Hm in E|]. now apply IH.
Qed.

Lemma pattern_tests_phrase (ws : list string) (s : jsstr) :
  forallb is_word (map str ws) = true ->
  includes s (join [" "%char] (map str ws)) = true ->
  js_test (Detect.pattern ws) s = true.
Proof.
  intros Hw H. unfold js_test.
  apply (test_where_it_stands _ _ (join [" "%char] (map str ws))); [|exact H].
  intros t Ht. unfold match_at, Detect.pattern. cbn [source ignoreCase].
  rewrite (phrase_matches true (length s) _ Hw) by exact Ht. discriminate.
Qed.

Lemma includes_tail s p c : includes s p = true -> includes (c :: s) p = true.
Proof. intros H. cbn [includes]. rewrite H. apply orb_true_r. Qed.

Lemma startsWith_shorter t w r : startsWith t (w ++ r) = true -> startsWith t w = true.
Proof. intros H. now apply startsWith_app_inv in H as [H _]. Qed.

Lemma includes_shorter s w r : includes s (w ++ r) = true -> includes s w = true.
Proof.
  induction s as [|c s IH]; intros H.
  - cbn [includes] in H. rewrite orb_false_r in H. apply includes_startsWith.
    now apply startsWith_shorter in H.
  - cbn [includes] in H. apply orb_true_iff in H as [H|H].
    + apply includes_startsWith. now apply startsWith_shorter in H.
    + apply includes_tail. now apply IH.
Qed.

(** X27.  [detectTCPage] flags every page whose lower-cased title
    contains one of the eight phrases of its patterns with single spaces
    between the words (the patterns allow any whitespace there), and
    marks the page. *)
Theorem title_phrase_is_flagged (ws : list string) (d : Document)
        (hs : list Element) (st : Detect.state) :
  In ws pattern_phrases ->
  includes (toLowerCase (document_title d)) (join (str " ") (map str ws)) = true ->
  Detect.isLikelyTC (Detect.detectTCPage d hs st) = true
  /\ (1 <= Detect.indicators (Detect.detectTCPage d hs st))%nat.
Proof.
  intros Hin Ht.
  assert (Detect.isLikelyTC (Detect.detectTCPage d hs st) = true) as Hflag.
  { rewrite detect_flag_formula.
    assert (existsb (fun pattern => js_test pattern (toLowerCase (document_title d)))
                    Detect.tcPatterns = true) as ->.
    { apply existsb_exists. exists (Detect.pattern ws). split.
      - unfold pattern_phrases in Hin. simpl in Hin. unfold Detect.tcPatterns.
        repeat (destruct Hin as [<-|Hin]; [simpl; tauto|]). destruct Hin.
      - apply pattern_tests_phrase; [|exact Ht].
        unfold pattern_phrases in Hin. simpl in Hin.
        repeat (destruct Hin as [<-|Hin]; [reflexivity|]). destruct Hin. }
    now rewrite orb_true_r. }
  split; [exact Hflag|].
  pose proof (detect_indicators_marked d hs st) as Hm. rewrite Hflag in Hm. exact Hm.
Qed.

Lemma title_phrase_is_flagged_witness :
  Detect.isLikelyTC (Detect.detectTCPage title_only_page [] Detect.initial) = true
  /\ (1 <= Detect.indicators (Detect.detectTCPage title_only_page [] Detect.initial))%nat.
Proof.
  apply (title_phrase_is_flagged ["terms"; "of"; "service"]%string title_only_page).
  - left. reflexivity.
  - reflexivity.
Defined.

(** X28.  The two scripts agree on seven title phrases: when the
    lower-cased title contains "terms of service", "terms of use",
    "terms and conditions", "user agreement", "privacy policy", "end user
    license agreement" or "service agreement", the popup's
    [detectAndExtractTC] calls the page a T&C page and the content
    script's [detectTCPage] flags it. *)
Theorem scripts_agree_on_title_phrases (indicator : jsstr) (d : Document)
        (hs : list Element) (st : Detect.state) :
  In indicator shared_indicators ->
  includes (toLowerCase (document_title d)) indicator = true ->
  Popup.isTC (Popup.detectAndExtractTC d) = true
  /\ Detect.isLikelyTC (Detect.detectTCPage d hs st) = true.
Proof.
  intros Hin Ht. split.
  - assert (In indicator Popup.tcIndicators) as Hp.
    { unfold shared_indicators in Hin. simpl in Hin. unfold Popup.tcIndicators. simpl.
      repeat (destruct Hin as [<-|Hin]; [tauto|]). destruct Hin. }
    assert (forall (a : Z) (x : jsstr),
               a <= if includes (toLowerCase (document_title d)) x then a + 25 else a)
      as Hmono by (intros a x; destruct (includes _ x); lia).
    assert (25 <= Popup.titleScore d) as Hscore.
    { unfold Popup.titleScore.
      apply (fold_left_ge_member _ Hmono _ 0 indicator 25 Hp).
      intros a. rewrite Ht. lia. }
    cbn [Popup.isTC Popup.detectAndExtractTC]. apply Z.leb_le.
    pose proof (urlScore_nonneg d). pose proof (headingScore_nonneg d).
    pose proof (contentScore_nonneg d). unfold Popup.totalScore. lia.
  - rewrite detect_flag_formula.
    assert (existsb (fun pattern => js_test pattern (toLowerCase (document_title d)))
                    Detect.tcPatterns = true) as ->; [|now rewrite orb_true_r].
    unfold shared_indicators in Hin. simpl in Hin.
    apply existsb_exists.
    destruct Hin as [<-|[<-|[<-|[<-|[<-|[<-|[<-|[]]]]]]]].
    + exists (Detect.pattern ["terms"; "of"; "service"]%string).
      split; [simpl; tauto|]. now apply pattern_tests_phrase.
    + exists (Detect.pattern ["terms"; "of"; "use"]%string).
      split; [simpl; tauto|]. now apply pattern_tests_phrase.
    + exists (Detect.pattern ["terms"; "and"; "conditions"]%string).
      split; [simpl; tauto|]. now apply pattern_tests_phrase.
    + exists (Detect.pattern ["user"; "agreement"]%string).
      split; [simpl; tauto|]. now apply pattern_tests_phrase.
    + exists (Detect.pattern ["privacy"; "policy"]%string).
      split; [simpl; tauto|]. now apply pattern_tests_phrase.
    + exists (Detect.pattern ["end"; "user"; "license"]%string).
      split; [simpl; tauto|]. apply pattern_tests_phrase; [reflexivity|].
      apply (includes_shorter _ _ (str " agreement")). exact Ht.
    + exists (Detect.pattern ["service"; "agreement"]%string).
      split; [simpl; tauto|]. now apply pattern_tests_phrase.
Qed.

Lemma scripts_agree_on_title_phrases_witness :
  Popup.isTC (Popup.detectAndExtractTC title_only_page) = true
  /\ Detect.isLikelyTC (Detect.detectTCPage title_only_page [] Detect.initial) = true.
Proof.
  apply (scripts_agree_on_title_phrases (str "terms of service") title_only_page).
  - left. reflexivity.
  - reflexivity.
Defined.

(* ------------------------------------------------------------------ *)
(** ** Initialisation and the cleanup alarm *)

Lemma existsb_filter_length {A} (p : A -> bool) (l : list A) :
  existsb p l = true -> (1 <= length (List.filter p l))%nat.
Proof.
  induction l as [|a l IH]; [discriminate|]. simpl.
  destruct (p a); simpl; [lia|exact IH].
Qed.

Lemma filter_none {A} (p : A -> bool) (l : list A) :
  existsb p l = false -> List.filter p l = [].
Proof.
  induction l as [|a l IH]; [reflexivity|]. simpl.
  destruct (p a); [discriminate|exact IH].
Qed.

Lemma filter_negb_all {A} (p : A -> bool) (l : list A) :
  existsb p l = false -> List.filter (fun a => negb (p a)) l = l.
Proof.
  induction l as [|a l IH]; [reflexivity|]. simpl.
  destruct (p a); [discriminate|]. intros H. simpl. now rewrite IH.
Qed.

Lemma initialize_sync_again (m : gmap jsstr bool) :
  <[str "cache_summaries" := true]>
    (<[str "auto_detect" := true]>
       (<[str "cache_summaries" := true]> (<[str "auto_detect" := true]> m)))
  = <[str "cache_summaries" := true]> (<[str "auto_detect" := true]> m).
Proof.
  apply map_eq. intros k.
  destruct (decide (k = str "cache_summaries")) as [->|Hc];
    [now rewrite !lookup_insert_eq|].
  rewrite !(lookup_insert_ne _ (str "cache_summaries")) by congruence.
  destruct (decide (k = str "auto_detect")) as [->|Ha];
    [now rewrite !lookup_insert_eq|].
  rewrite !(lookup_insert_ne _ (str "auto_detect")) by congruence.
  rewrite !(lookup_insert_ne _ (str "cache_summaries")) by congruence.
  now rewrite !(lookup_insert_ne _ (str "auto_detect")) by congruence.
Qed.

(** X29.  Where [chrome.storage] and [chrome.alarms] are there,
    [initializeExtension] leaves exactly the alarms it found plus, when
    none was named cleanupCache, one daily alarm of that name: an alarm of
    that name that was already there keeps its own period, no second one
    is added, and running the initialisation again changes nothing.  Both
    settings are true afterwards, whatever they were. *)
Theorem initialization_keeps_one_cleanup_alarm (b : Setup.browser) (al : list Setup.alarm) :
  Setup.storage b = true ->
  Setup.alarms b = Some al ->
  Setup.initializeExtension (Setup.initializeExtension b) = Setup.initializeExtension b
  /\ Setup.sync (Setup.initializeExtension b) !! str "auto_detect" = Some true
  /\ Setup.sync (Setup.initializeExtension b) !! str "cache_summaries" = Some true
  /\ exists al',
       Setup.alarms (Setup.initializeExtension b) = Some al'
       /\ length (List.filter (Setup.named Setup.cleanupCache) al')
          = Nat.max 1 (length (List.filter (Setup.named Setup.cleanupCache) al))
       /\ (if existsb (Setup.named Setup.cleanupCache) al
           then al' = al
           else al' = al ++ [Setup.mk_alarm Setup.cleanupCache 1440]).
Proof.
  intros Hs Ha.
  set (sync' := <[str "cache_summaries" := true]>
                  (<[str "auto_detect" := true]> (Setup.sync b))).
  assert (forall m l, existsb (Setup.named Setup.cleanupCache) l = true ->
            Setup.initializeExtension (Setup.mk true m (Some l))
            = Setup.mk true
                (<[str "cache_summaries" := true]> (<[str "auto_detect" := true]> m))
                (Some l)) as Hkeep.
  { intros m l El. unfold Setup.initializeExtension.
    cbn [Setup.storage Setup.alarms Setup.sync negb]. now rewrite El. }
  destruct (existsb (Setup.named Setup.cleanupCache) al) eqn:E.
  - assert (Setup.initializeExtension b = Setup.mk true sync' (Some al)) as ->.
    { unfold Setup.initializeExtension. rewrite Hs, Ha, E. reflexivity. }
    split; [|split; [|split]].
    + rewrite (Hkeep _ _ E). unfold sync'. now rewrite initialize_sync_again.
    + cbn [Setup.sync]. unfold sync'.
      rewrite lookup_insert_ne by discriminate. apply lookup_insert_eq.
    + cbn [Setup.sync]. apply lookup_insert_eq.
    + exists al. split; [reflexivity|]. split; [|reflexivity].
      apply existsb_filter_length in E. lia.
  - assert (Setup.create (Setup.mk_alarm Setup.cleanupCache (60 * 24)) al
            = al ++ [Setup.mk_alarm Setup.cleanupCache 1440]) as Hc.
    { unfold Setup.create. cbn [Setup.name].
      now rewrite (filter_negb_all _ _ E). }
    assert (Setup.initializeExtension b
            = Setup.mk true sync' (Some (al ++ [Setup.mk_alarm Setup.cleanupCache 1440])))
      as ->.
    { unfold Setup.initializeExtension. rewrite Hs, Ha, E. cbn [negb].
      now rewrite Hc. }
    assert (existsb (Setup.named Setup.cleanupCache)
                    (al ++ [Setup.mk_alarm Setup.cleanupCache 1440]) = true) as E'.
    { rewrite existsb_app. apply orb_true_iff. right. reflexivity. }
    split; [|split; [|split]].
    + rewrite (Hkeep _ _ E'). unfold sync'. now rewrite initialize_sync_again.
    + cbn [Setup.sync]. unfold sync'.
      rewrite lookup_insert_ne by discriminate. apply lookup_insert_eq.
    + cbn [Setup.sync]. apply lookup_insert_eq.
    + eexists. split; [reflexivity|]. split; [|reflexivity].
      rewrite List.filter_app, length_app, (filter_none _ _ E). reflexivity.
Qed.

Lemma initialization_keeps_one_cleanup_alarm_witness :
  Setup.alarms
    (Setup.initializeExtension
       (Setup.initializeExtension (Setup.mk true ∅ (Some []))))
  = Some [Setup.mk_alarm Setup.cleanupCache 1440].
Proof.
  destruct (initialization_keeps_one_cleanup_alarm (Setup.mk true ∅ (Some [])) [])
    as (Hi & _ & _ & al' & Hal & _ & Hl); [reflexivity|reflexivity|].
  rewrite Hi, Hal. simpl in Hl. now rewrite Hl.
Defined.
